(** * wl-scanner: the schema-to-binding generator of [wl-scanner.go]

    A shallow embedding of the generator: the parsed protocol document, the
    symbol table [wlNames], the wire-type tables, the two binding builders
    [ProcessRequests] and [ProcessEvents], the text templates, [fmtFile] and
    [main].

    Text is a [string] of bytes.  Protocol names are ASCII identifiers, and
    the functions of Go's [strings] package are embedded with their ASCII
    behaviour: a byte above 0x7F has no case mapping and separates no words.

    The package-level variables of the program ([wlNames], [wlPrefix],
    [trimPrefix], [ifTrimSuffix], [fileBuffer]) are the fields of [Globals],
    passed explicitly.  The command-line flags are the fields of [Flags].  The
    clock read by [main] is an input of [main], and so is the host on which
    [main] creates its file and [fmtFile] runs the formatter. *)

From Stdlib Require Import Ascii DecimalString DecimalNat.
From stdpp Require Import gmap strings list.

(** ** Byte constants that a string literal cannot hold *)

Definition nl : string := String (ascii_of_nat 10) EmptyString.
Definition tab : string := String (ascii_of_nat 9) EmptyString.
Definition dquote : string := String (ascii_of_nat 34) EmptyString.

Definition underscore : ascii := ascii_of_nat 95.
Definition space : ascii := ascii_of_nat 32.
Definition dot : ascii := ascii_of_nat 46.

(** ** Go's [strings] package, as far as the generator calls it *)

Module strings.

Fixpoint HasPrefix (s prefix : string) : bool :=
  match prefix, s with
  | EmptyString, _ => true
  | String _ _, EmptyString => false
  | String p prefix', String c s' =>
      if decide (p = c) then HasPrefix s' prefix' else false
  end.

Fixpoint drop (n : nat) (s : string) : string :=
  match n, s with
  | O, _ => s
  | S _, EmptyString => EmptyString
  | S n', String _ s' => drop n' s'
  end.

Fixpoint take (n : nat) (s : string) : string :=
  match n, s with
  | O, _ => EmptyString
  | S _, EmptyString => EmptyString
  | S n', String c s' => String c (take n' s')
  end.

Definition HasSuffix (s suffix : string) : bool :=
  (String.length suffix <=? String.length s) &&
  bool_decide (drop (String.length s - String.length suffix) s = suffix).

Definition TrimPrefix (s prefix : string) : string :=
  if HasPrefix s prefix then drop (String.length prefix) s else s.

Definition TrimSuffix (s suffix : string) : string :=
  if HasSuffix s suffix then take (String.length s - String.length suffix) s
  else s.

(** [Replace s old new (-1)] for a one-byte [old], as at every call site. *)
Fixpoint Replace (s : string) (old : ascii) (new : string) : string :=
  match s with
  | EmptyString => EmptyString
  | String c s' =>
      (if decide (c = old) then new else String c EmptyString) +:+ Replace s' old new
  end.

Definition between (lo hi : nat) (c : ascii) : bool :=
  (lo <=? nat_of_ascii c) && (nat_of_ascii c <=? hi).

Definition isLower (c : ascii) : bool := between 97 122 c.
Definition isUpper (c : ascii) : bool := between 65 90 c.
Definition isDigit (c : ascii) : bool := between 48 57 c.

(** ASCII letters, digits and the underscore are no separators; every other
    ASCII byte is one. *)
Definition isSeparator (c : ascii) : bool :=
  if nat_of_ascii c <=? 127
  then negb (isDigit c || isLower c || isUpper c || bool_decide (c = underscore))
  else false.

Definition toTitle (c : ascii) : ascii :=
  if isLower c then ascii_of_nat (nat_of_ascii c - 32) else c.

Definition toLower (c : ascii) : ascii :=
  if isUpper c then ascii_of_nat (nat_of_ascii c + 32) else c.

(** [Title] maps over the text with the previous byte as its state, which
    starts as a space. *)
Fixpoint Title_from (prev : ascii) (s : string) : string :=
  match s with
  | EmptyString => EmptyString
  | String c s' =>
      String (if isSeparator prev then toTitle c else c) (Title_from c s')
  end.

Definition Title (s : string) : string := Title_from space s.

Fixpoint ToLower (s : string) : string :=
  match s with
  | EmptyString => EmptyString
  | String c s' => String (toLower c) (ToLower s')
  end.

(** [Split s sep] for a one-byte [sep]: never empty, one more piece than
    there are separators. *)
Fixpoint Split (s : string) (sep : ascii) : list string :=
  match s with
  | EmptyString => [EmptyString]
  | String c s' =>
      if decide (c = sep) then EmptyString :: Split s' sep
      else match Split s' sep with
           | [] => [String c EmptyString]
           | piece :: pieces => String c piece :: pieces
           end
  end.

Fixpoint Join (elems : list string) (sep : string) : string :=
  match elems with
  | [] => EmptyString
  | [e] => e
  | e :: elems' => e +:+ sep +:+ Join elems' sep
  end.

Definition isSpace (c : ascii) : bool :=
  between 9 13 c || bool_decide (c = space).

Fixpoint trimLeft (s : string) : string :=
  match s with
  | EmptyString => EmptyString
  | String c s' => if isSpace c then trimLeft s' else s
  end.

Definition TrimSpace (s : string) : string :=
  String.rev (trimLeft (String.rev (trimLeft s))).

(** [Index s sep] for a one-byte [sep]: the place of its first occurrence,
    [-1] when there is none. *)
Fixpoint Index (s : string) (c : ascii) : Z :=
  match s with
  | EmptyString => (-1)%Z
  | String x s' =>
      if decide (x = c) then 0%Z
      else let i := Index s' c in
           if decide (i = (-1)%Z) then (-1)%Z else (i + 1)%Z
  end.

End strings.

(** [%d] of a non-negative int. *)
Definition itoa (n : nat) : string := NilEmpty.string_of_uint (Nat.to_uint n).

(** ** The parsed protocol document (the xml types) *)

Module Description.
Record t := mk { Summary : string; Text : string }.
End Description.

(** [Type_] stands for the field [Type], here and below. *)
Module Arg.
Record t := mk {
  Name : string;
  Type_ : string;
  Interface : string;
  Enum : string;
  AllowNull : bool;
  Summary : string
}.
End Arg.

Module Request.
Record t := mk {
  Name : string;
  Type_ : string;
  Since : nat;
  Description : Description.t;
  Args : list Arg.t
}.
End Request.

Module Event.
Record t := mk {
  Name : string;
  Type_ : string;
  Since : nat;
  Description : Description.t;
  Args : list Arg.t
}.
End Event.

Module Entry.
Record t := mk { Name : string; Value : string; Summary : string }.
End Entry.

Module Enum.
Record t := mk {
  Name : string;
  BitField : bool;
  Description : Description.t;
  Entries : list Entry.t
}.
End Enum.

Module Interface.
Record t := mk {
  Name : string;
  Version : nat;
  Since : nat;
  Description : Description.t;
  Requests : list Request.t;
  Events : list Event.t;
  Enums : list Enum.t
}.
End Interface.

Module Protocol.
Record t := mk {
  Name : string;
  Copyright : string;
  Interfaces : list Interface.t
}.
End Protocol.

(** The interface [RoE] has two implementations, [Request] and [Event]. *)
Inductive RoE :=
  | RoE_Request (r : Request.t)
  | RoE_Event (e : Event.t).

Definition NameStr (x : RoE) : string :=
  match x with
  | RoE_Request r => Request.Name r
  | RoE_Event e => Event.Name e
  end.

Definition Desc (x : RoE) : Description.t :=
  match x with
  | RoE_Request r => Request.Description r
  | RoE_Event e => Event.Description e
  end.

Definition Argss (x : RoE) : list Arg.t :=
  match x with
  | RoE_Request r => Request.Args r
  | RoE_Event e => Event.Args e
  end.

(** ** The bindings (the go types) *)

Module GoRequest.
Record t := mk {
  Name : string;
  IfaceName : string;
  Params : string;
  Returns : string;
  Args : string;
  HasNewId : bool;
  NewIdInterface : string;
  Prefix : string;
  Order : nat;
  Summary : string;
  Description : string
}.
End GoRequest.

Module GoArg.
Record t := mk {
  Name : string;
  Type_ : string;
  PName : string;
  BufMethod : string;
  AllowNull : bool;
  BasicType : bool;
  SnakeName : string
}.
End GoArg.

Module GoEvent.
Record t := mk {
  WL : string;
  Name : string;
  IfaceName : string;
  PName : string;
  EName : string;
  Args : list GoArg.t
}.
End GoEvent.

Module GoEntry.
Record t := mk { Name : string; Value : string }.
End GoEntry.

Module GoEnum.
Record t := mk {
  Name : string;
  IfaceName : string;
  Entries : list GoEntry.t
}.
End GoEnum.

Module GoInterface.
Record t := mk {
  Name : string;
  WL : string;
  WlInterface : Interface.t;
  Requests : list GoRequest.t;
  Events : list GoEvent.t;
  Enums : list GoEnum.t
}.
End GoInterface.

(** ** The wire-type tables *)

Definition wlTypes : gmap string string :=
  <["int" := "int32"]> (<["uint" := "uint32"]> (<["string" := "string"]>
  (<["fd" := "uintptr"]> (<["fixed" := "float32"]> (<["array" := "[]int32"]> ∅))))).

Definition bufTypesMap : gmap string string :=
  <["int32" := "Int32()"]> (<["uint32" := "Uint32()"]> (<["string" := "String()"]>
  (<["float32" := "Float32()"]> (<["[]int32" := "Array()"]> (<["uintptr" := "FD()"]> ∅))))).

Definition inheritedNames : list string :=
  [ "wl_display"; "wl_registry"; "wl_callback"; "wl_compositor"; "wl_shm_pool";
    "wl_shm"; "wl_buffer"; "wl_data_offer"; "wl_data_source"; "wl_data_device";
    "wl_data_device_manager"; "wl_shell"; "wl_shell_surface"; "wl_surface";
    "wl_seat"; "wl_pointer"; "wl_keyboard"; "wl_touch"; "wl_output"; "wl_region";
    "wl_subcompositor"; "wl_subsurface" ].

(** ** Flags and package-level variables *)

Record Flags := mkFlags {
  side : string;
  source : string;
  output : string;
  pkgName : string;
  unstable : string
}.

Record Globals := mkGlobals {
  wlNames : gmap string string;
  wlPrefix : string;
  trimPrefix : string;
  ifTrimSuffix : string;
  fileBuffer : string
}.

(** The variables as their declarations initialise them; [main] makes
    [wlNames] an empty map before its first use. *)
Definition initialGlobals : Globals :=
  mkGlobals ∅ "" "wl_" "" "".

Definition set_wlNames (m : gmap string string) (g : Globals) : Globals :=
  mkGlobals m (wlPrefix g) (trimPrefix g) (ifTrimSuffix g) (fileBuffer g).
Definition set_wlPrefix (s : string) (g : Globals) : Globals :=
  mkGlobals (wlNames g) s (trimPrefix g) (ifTrimSuffix g) (fileBuffer g).
Definition set_trimPrefix (s : string) (g : Globals) : Globals :=
  mkGlobals (wlNames g) (wlPrefix g) s (ifTrimSuffix g) (fileBuffer g).
Definition set_ifTrimSuffix (s : string) (g : Globals) : Globals :=
  mkGlobals (wlNames g) (wlPrefix g) (trimPrefix g) s (fileBuffer g).
Definition set_fileBuffer (s : string) (g : Globals) : Globals :=
  mkGlobals (wlNames g) (wlPrefix g) (trimPrefix g) (ifTrimSuffix g) s.

(** A missing key reads as the empty string. *)
Definition index (m : gmap string string) (k : string) : string :=
  default "" (m !! k).

(** [fmt.Fprintf(fileBuffer, ...)] and a template written to [fileBuffer]. *)
Definition Fprintf (text : string) (g : Globals) : Globals :=
  set_fileBuffer (fileBuffer g +:+ text) g.

(** ** Names *)

Definition CamelCase (g : Globals) (wlName : string) : string :=
  let wlName := strings.TrimPrefix wlName (trimPrefix g) in
  let wlName := strings.Replace wlName underscore " " in
  let wlName := strings.Title wlName in
  let wlName := strings.Replace wlName space "" in
  wlName.

Definition snakeCase (wlName : string) : string :=
  let wlName :=
    if strings.HasPrefix wlName "wl_" then strings.TrimPrefix wlName "wl_"
    else wlName in
  let wlName := strings.Replace wlName underscore " " in
  let parts := strings.Split wlName space in
  let parts := imap (fun i p => if decide (i = 0) then p else strings.Title p) parts in
  strings.Join parts "".

Definition stripUnstable (g : Globals) (ifname : string) : string :=
  strings.TrimSuffix ifname (ifTrimSuffix g).

Definition caseAndRegister (wlName : string) (g : Globals) : string * Globals :=
  let orj := wlName in
  let wlName := CamelCase g wlName in
  (wlName, set_wlNames (<[orj := wlName]> (wlNames g)) g).

Definition reflow (text : string) : string :=
  fold_left (fun ret line => ret +:+ "// " +:+ strings.TrimSpace line +:+ nl)
            (strings.Split text (ascii_of_nat 10)) "".

(** ** The templates

    Each template is the function from its data to the text it executes to.
    An action written [{{- ...] drops the blanks that end the text before it,
    one written [... -}}] drops the blanks that start the text after it; the
    literal text below is what is left of the template's text after that.
    [text/template] fails on none of these templates: every field exists and
    [len], [gt], [and] and [not] get arguments of their types. *)

(** [{{range .}} body {{end}}] *)
Definition range {A} (body : A → string) (l : list A) : string :=
  foldr (fun x rest => body x +:+ rest) "" l.

Definition ifaceTypeTemplate (i : GoInterface.t) : string :=
  nl +:+ "type " +:+ GoInterface.Name i +:+ " struct {" +:+ nl +:+
  tab +:+ GoInterface.WL i +:+ "BaseProxy" +:+
  (if 0 <? length (GoInterface.Events i)
   then nl +:+ tab +:+ "mu sync.RWMutex" else "") +:+
  range (fun e : GoEvent.t =>
           nl +:+ tab +:+ GoEvent.PName e +:+ "Handlers []" +:+
           GoEvent.EName e +:+ "Handler")
        (GoInterface.Events i) +:+
  nl +:+ "}" +:+ nl.

Definition ifaceConstructorTemplate (i : GoInterface.t) : string :=
  nl +:+ "func New" +:+ GoInterface.Name i +:+ "(ctx *" +:+ GoInterface.WL i +:+
  "Context) *" +:+ GoInterface.Name i +:+ " {" +:+ nl +:+
  tab +:+ "ret := new(" +:+ GoInterface.Name i +:+ ")" +:+ nl +:+
  tab +:+ "ctx.Register(ret)" +:+ nl +:+
  tab +:+ "return ret" +:+ nl +:+
  "}" +:+ nl.

Definition ifaceConstructorTemplateId (i : GoInterface.t) : string :=
  nl +:+ "func New" +:+ GoInterface.Name i +:+ "(ctx *" +:+ GoInterface.WL i +:+
  "Context, id int) *" +:+ GoInterface.Name i +:+ " {" +:+ nl +:+
  tab +:+ "ret := new(" +:+ GoInterface.Name i +:+ ")" +:+ nl +:+
  tab +:+ "ctx.RegisterId(ret, id)" +:+ nl +:+
  tab +:+ "return ret" +:+ nl +:+
  "}" +:+ nl.

Definition ifaceAddRemoveHandlerTemplate (e : GoEvent.t) : string :=
  nl +:+ "func (p *" +:+ GoEvent.IfaceName e +:+ ") Add" +:+ GoEvent.Name e +:+
  "Handler(h " +:+ GoEvent.EName e +:+ "Handler) {" +:+ nl +:+
  tab +:+ "if h != nil {" +:+ nl +:+
  tab +:+ tab +:+ "p.mu.Lock()" +:+ nl +:+
  tab +:+ tab +:+ "p." +:+ GoEvent.PName e +:+ "Handlers = append(p." +:+
  GoEvent.PName e +:+ "Handlers , h)" +:+ nl +:+
  tab +:+ tab +:+ "p.mu.Unlock()" +:+ nl +:+
  tab +:+ "}" +:+ nl +:+
  "}" +:+ nl +:+
  nl +:+
  "func (p *" +:+ GoEvent.IfaceName e +:+ ") Remove" +:+ GoEvent.Name e +:+
  "Handler(h " +:+ GoEvent.EName e +:+ "Handler) {" +:+ nl +:+
  tab +:+ "p.mu.Lock()" +:+ nl +:+
  tab +:+ "defer p.mu.Unlock()" +:+ nl +:+
  nl +:+
  tab +:+ "for i , e := range p." +:+ GoEvent.PName e +:+ "Handlers {" +:+ nl +:+
  tab +:+ tab +:+ "if e == h {" +:+ nl +:+
  tab +:+ tab +:+ tab +:+ "p." +:+ GoEvent.PName e +:+ "Handlers = append(p." +:+
  GoEvent.PName e +:+ "Handlers[:i] , p." +:+ GoEvent.PName e +:+
  "Handlers[i+1:]...)" +:+ nl +:+
  tab +:+ tab +:+ tab +:+ "break" +:+ nl +:+
  tab +:+ tab +:+ "}" +:+ nl +:+
  tab +:+ "}" +:+ nl +:+
  "}" +:+ nl.

(** The call of the shared send primitive: the receiver, the opcode and the
    marshalled arguments. *)
Definition sendRequestCall (r : GoRequest.t) : string :=
  "p.Context().SendRequest(p," +:+ itoa (GoRequest.Order r) +:+ GoRequest.Args r +:+ ")".

Definition requestTemplate (r : GoRequest.t) : string :=
  nl +:+ "// " +:+ GoRequest.Name r +:+ " will " +:+ GoRequest.Summary r +:+ "." +:+ nl +:+
  "//" +:+
  (if GoRequest.HasNewId r then
     (if 0 <? String.length (GoRequest.Params r) then
        nl +:+ GoRequest.Description r +:+ "func (p *" +:+ GoRequest.IfaceName r +:+
        ") " +:+ GoRequest.Name r +:+ "(" +:+ GoRequest.Params r +:+ ", id int) " +:+
        GoRequest.Returns r +:+ " {"
      else
        nl +:+ GoRequest.Description r +:+ "func (p *" +:+ GoRequest.IfaceName r +:+
        ") " +:+ GoRequest.Name r +:+ "(id int) " +:+ GoRequest.Returns r +:+ " {") +:+
     nl +:+ tab +:+ "ret := " +:+ GoRequest.Prefix r +:+ "New" +:+
     GoRequest.NewIdInterface r +:+ "(p.Context(), id)" +:+ nl +:+
     tab +:+ "return ret , " +:+ sendRequestCall r
   else
     nl +:+ GoRequest.Description r +:+ "func (p *" +:+ GoRequest.IfaceName r +:+
     ") " +:+ GoRequest.Name r +:+ "(" +:+ GoRequest.Params r +:+ ") " +:+
     GoRequest.Returns r +:+ " {" +:+ nl +:+
     tab +:+ "return " +:+ sendRequestCall r) +:+
  nl +:+ "}" +:+ nl.

Definition eventTemplate (e : GoEvent.t) : string :=
  nl +:+ "type " +:+ GoEvent.IfaceName e +:+ GoEvent.Name e +:+ "Event struct {" +:+
  range (fun a : GoArg.t => nl +:+ tab +:+ GoArg.Name a +:+ " " +:+ GoArg.Type_ a)
        (GoEvent.Args e) +:+
  nl +:+ "}" +:+ nl +:+
  nl +:+
  "type " +:+ GoEvent.IfaceName e +:+ GoEvent.Name e +:+ "Handler interface {" +:+ nl +:+
  "    Handle" +:+ GoEvent.EName e +:+ "(" +:+ GoEvent.EName e +:+ "Event)" +:+ nl +:+
  "}" +:+ nl.

(** The decode path of one argument inside its dispatch case. *)
Definition dispatchArg (a : GoArg.t) : string :=
  nl +:+ tab +:+ tab +:+ tab +:+
  (if negb (GoArg.BasicType a) && GoArg.AllowNull a then
     GoArg.SnakeName a +:+ " := " +:+ GoArg.BufMethod a +:+ nl +:+
     tab +:+ tab +:+ tab +:+ "if " +:+ GoArg.SnakeName a +:+ " != nil {" +:+ nl +:+
     tab +:+ tab +:+ tab +:+ tab +:+ "ev." +:+ GoArg.Name a +:+ " = " +:+
     GoArg.SnakeName a +:+ ".(" +:+ GoArg.Type_ a +:+ ")" +:+ nl +:+
     tab +:+ tab +:+ tab +:+ "}"
   else
     "ev." +:+ GoArg.Name a +:+ " = " +:+ GoArg.BufMethod a).

(** The key of the case of the dispatch switch for the event at index [i]. *)
Definition caseLabel (i : nat) : string :=
  nl +:+ tab +:+ "case " +:+ itoa i +:+ ":".

(** What the case does: decode the arguments, call the handlers. *)
Definition caseBody (ifaceName : string) (e : GoEvent.t) : string :=
  nl +:+
  tab +:+ tab +:+ "if len(p." +:+ GoEvent.PName e +:+ "Handlers) > 0 {" +:+ nl +:+
  tab +:+ tab +:+ tab +:+ "ev := " +:+ ifaceName +:+ GoEvent.Name e +:+ "Event{}" +:+
  range dispatchArg (GoEvent.Args e) +:+
  nl +:+ tab +:+ tab +:+ tab +:+ "p.mu.RLock()" +:+ nl +:+
  tab +:+ tab +:+ tab +:+ "for _, h := range p." +:+ GoEvent.PName e +:+ "Handlers {" +:+ nl +:+
  tab +:+ tab +:+ tab +:+ tab +:+ "h.Handle" +:+ GoEvent.EName e +:+ "(ev)" +:+ nl +:+
  tab +:+ tab +:+ tab +:+ "}" +:+ nl +:+
  tab +:+ tab +:+ tab +:+ "p.mu.RUnlock()" +:+ nl +:+
  tab +:+ tab +:+ "}".

(** One round of [{{range $i, $event := .Events}}]. *)
Definition dispatchCase (ifaceName : string) (i : nat) (e : GoEvent.t) : string :=
  caseLabel i +:+ caseBody ifaceName e.

(** The cases of the switch, in the order of [.Events]. *)
Definition dispatchCases (i : GoInterface.t) : list string :=
  imap (dispatchCase (GoInterface.Name i)) (GoInterface.Events i).

Definition ifaceDispatchTemplate (i : GoInterface.t) : string :=
  nl +:+ "func (p *" +:+ GoInterface.Name i +:+ ") Dispatch(event *" +:+
  GoInterface.WL i +:+ "Event) {" +:+
  nl +:+ tab +:+ "switch event.Opcode {" +:+
  foldr String.append "" (dispatchCases i) +:+
  nl +:+ tab +:+ "}" +:+ nl +:+
  "}" +:+ nl.

Definition ifaceEnums (e : GoEnum.t) : string :=
  nl +:+ "const (" +:+
  range (fun x : GoEntry.t =>
           nl +:+ tab +:+ GoEnum.IfaceName e +:+ GoEnum.Name e +:+ GoEntry.Name x +:+
           " = " +:+ GoEntry.Value x)
        (GoEnum.Entries e) +:+
  nl +:+ ")" +:+ nl.

(** ** The two string slices of [ProcessRequests]

    [params] and [sendRequestArgs] are slices, and
    [sendRequestArgs = append(params, ...)] may leave both on one backing
    array.  The model keeps what each slice shows, the capacity behind each,
    and whether they share the array (both start at its first cell).  An
    append with room writes the next cell in place, which the other slice
    sees when it shares the array and the cell is within its length; an
    append without room moves the slice to an array of its own. *)

Record slices := mkSlices {
  params : list string;
  params_cap : nat;
  sendRequestArgs : list string;
  sendRequestArgs_cap : nat;
  shared : bool
}.

(** The runtime's growth of a full slice that gets one more element: the
    capacity doubles (exact below 256 elements, which no request reaches). *)
Definition growcap (cap : nat) : nat :=
  if decide (cap = 0) then 1 else 2 * cap.

(** [params = append(params, x)] *)
Definition append_params (x : string) (s : slices) : slices :=
  let n := length (params s) in
  if n <? params_cap s then
    mkSlices (params s ++ [x]) (params_cap s)
             (if shared s then <[n := x]> (sendRequestArgs s) else sendRequestArgs s)
             (sendRequestArgs_cap s) (shared s)
  else
    mkSlices (params s ++ [x]) (growcap (params_cap s))
             (sendRequestArgs s) (sendRequestArgs_cap s) false.

(** [sendRequestArgs = append(sendRequestArgs, x)] *)
Definition append_sendRequestArgs (x : string) (s : slices) : slices :=
  let n := length (sendRequestArgs s) in
  if n <? sendRequestArgs_cap s then
    mkSlices (if shared s then <[n := x]> (params s) else params s) (params_cap s)
             (sendRequestArgs s ++ [x]) (sendRequestArgs_cap s) (shared s)
  else
    mkSlices (params s) (params_cap s)
             (sendRequestArgs s ++ [x]) (growcap (sendRequestArgs_cap s)) false.

(** [sendRequestArgs = append(params, x)] *)
Definition sendRequestArgs_of_params (x : string) (s : slices) : slices :=
  if length (params s) <? params_cap s then
    mkSlices (params s) (params_cap s) (params s ++ [x]) (params_cap s) true
  else
    mkSlices (params s) (params_cap s) (params s ++ [x]) (growcap (params_cap s)) false.

(** ** The binding builders *)

Definition set_newId (newIdInterface prefix : string) (r : GoRequest.t) : GoRequest.t :=
  GoRequest.mk (GoRequest.Name r) (GoRequest.IfaceName r) (GoRequest.Params r)
    (GoRequest.Returns r) (GoRequest.Args r) true newIdInterface prefix
    (GoRequest.Order r) (GoRequest.Summary r) (GoRequest.Description r).

Definition set_signature (params returns args : string) (r : GoRequest.t) : GoRequest.t :=
  GoRequest.mk (GoRequest.Name r) (GoRequest.IfaceName r) params returns args
    (GoRequest.HasNewId r) (GoRequest.NewIdInterface r) (GoRequest.Prefix r)
    (GoRequest.Order r) (GoRequest.Summary r) (GoRequest.Description r).

(** [components[:len(components)-1]] joined, with a dot after it, when the
    identifier is qualified. *)
Definition qualifier (components : list string) : string :=
  if 1 <? length components
  then strings.Join (take (length components - 1) components) "." +:+ "."
  else "".

(** [components[len(components)-1]]; [Split] returns no empty slice. *)
Definition lastComponent (components : list string) : string :=
  default "" (last components).

(** The local variables of one round of the loop over the requests. *)
Record requestLocals := mkRequestLocals {
  returns : list string;
  sl : slices;
  req : GoRequest.t
}.

(** The body of the loop over the arguments of one request. *)
Definition requestArg (g : Globals) (st : requestLocals) (arg : Arg.t) : requestLocals :=
  let name := if decide (Arg.Name arg = "interface") then "iface" else Arg.Name arg in
  if decide (Arg.Type_ arg = "new_id") then
    if decide (Arg.Interface arg ≠ "") then
      let newIdIface := index (wlNames g) (stripUnstable g (Arg.Interface arg)) in
      let components := strings.Split newIdIface dot in
      let prefix := qualifier components in
      mkRequestLocals
        (returns st ++ ["*" +:+ newIdIface])
        (sendRequestArgs_of_params (wlPrefix g +:+ "Proxy(ret)") (sl st))
        (set_newId (lastComponent components) prefix (req st))
    else
      mkRequestLocals
        (returns st)
        (append_params (name +:+ " " +:+ wlPrefix g +:+ "Proxy")
          (append_params "version uint32"
            (append_params "iface string"
              (append_sendRequestArgs name
                (append_sendRequestArgs "version"
                  (append_sendRequestArgs "iface" (sl st)))))))
        (req st)
  else if decide (Arg.Type_ arg = "object" ∧ Arg.Interface arg ≠ "") then
    let paramTypeName := index (wlNames g) (stripUnstable g (Arg.Interface arg)) in
    mkRequestLocals
      (returns st)
      (append_sendRequestArgs name
        (append_params (name +:+ " *" +:+ paramTypeName) (sl st)))
      (req st)
  else
    mkRequestLocals
      (returns st)
      (append_params (name +:+ " " +:+ index wlTypes (Arg.Type_ arg))
        (append_sendRequestArgs name (sl st)))
      (req st).

(** One round of the loop over the requests: the binding of [wlReq], which
    stands at index [order]. *)
Definition buildRequest (g : Globals) (i : GoInterface.t) (order : nat) (wlReq : RoE)
  : GoRequest.t :=
  let req0 :=
    GoRequest.mk (CamelCase g (NameStr wlReq)) (stripUnstable g (GoInterface.Name i))
      "" "" "" false "" "" order
      (Description.Summary (Desc wlReq)) (reflow (Description.Text (Desc wlReq))) in
  let st := fold_left (requestArg g)
              (Argss wlReq)
              (mkRequestLocals [] (mkSlices [] 0 [] 0 false) req0) in
  let params := strings.Join (params (sl st)) "," in
  let args :=
    if 0 <? length (sendRequestArgs (sl st))
    then "," +:+ strings.Join (sendRequestArgs (sl st)) ","
    else "" in
  let returns :=
    if 0 <? length (returns st)
    then "(" +:+ strings.Join (returns st) "," +:+ " , error)"
    else "error" in
  set_signature params returns args (req st).

Definition add_request (r : GoRequest.t) (i : GoInterface.t) : GoInterface.t :=
  GoInterface.mk (GoInterface.Name i) (GoInterface.WL i) (GoInterface.WlInterface i)
    (GoInterface.Requests i ++ [r]) (GoInterface.Events i) (GoInterface.Enums i).

Definition add_event (e : GoEvent.t) (i : GoInterface.t) : GoInterface.t :=
  GoInterface.mk (GoInterface.Name i) (GoInterface.WL i) (GoInterface.WlInterface i)
    (GoInterface.Requests i) (GoInterface.Events i ++ [e]) (GoInterface.Enums i).

(** [for order, wlReq := range roe], from index [order] on. *)
Fixpoint ProcessRequests_from (order : nat) (roe : list RoE)
    (st : Globals * GoInterface.t) : Globals * GoInterface.t :=
  match roe with
  | [] => st
  | wlReq :: roe' =>
      let '(g, i) := st in
      let req := buildRequest g i order wlReq in
      ProcessRequests_from (S order) roe'
        (Fprintf (requestTemplate req) g, add_request req i)
  end.

Definition ProcessRequests (roe : list RoE) (st : Globals * GoInterface.t)
  : Globals * GoInterface.t :=
  ProcessRequests_from 0 roe st.

(** The body of the loop over the arguments of one event: the binding of
    [arg].  A missing entry of [bufTypesMap] is logged and leaves the decode
    expression empty. *)
Definition buildArg (f : Flags) (g : Globals) (arg : Arg.t) : GoArg.t :=
  let Name := CamelCase g (Arg.Name arg) in
  let PName := snakeCase (Arg.Name arg) in
  let AllowNull := Arg.AllowNull arg in
  match wlTypes !! Arg.Type_ arg with
  | Some t =>
      let BufMethod :=
        match bufTypesMap !! t with
        | None => ""
        | Some bufMethod =>
            if decide (bufMethod = "FD()") then "p.Context().NextFD()"
            else "event." +:+ bufMethod
        end in
      GoArg.mk Name t PName BufMethod AllowNull true ""
  | None =>
      let resolved := index (wlNames g) (stripUnstable g (Arg.Interface arg)) in
      if decide (Arg.Type_ arg = "new_id" ∧ side f = "server" ∧ Arg.Interface arg ≠ "") then
        let t := "*" +:+ resolved in
        let components := strings.Split resolved dot in
        let prefix := qualifier components in
        GoArg.mk Name t PName
          (prefix +:+ "New" +:+ lastComponent components +:+
           "(p.Context(), int(event.Uint32()))")
          AllowNull false ""
      else if decide (Arg.Type_ arg = "new_id" ∧ Arg.Interface arg ≠ "") then
        let t := "*" +:+ resolved in
        GoArg.mk Name t PName ("event.Proxy(p.Context()).(" +:+ t +:+ ")")
          AllowNull false ""
      else if decide (Arg.Type_ arg = "object" ∧ Arg.AllowNull arg = false
                      ∧ Arg.Interface arg ≠ "") then
        let t := "*" +:+ resolved in
        GoArg.mk Name t PName ("event.Proxy(p.Context()).(" +:+ t +:+ ")")
          AllowNull false ""
      else if decide (Arg.Type_ arg = "object" ∧ Arg.AllowNull arg = true
                      ∧ Arg.Interface arg ≠ "") then
        let t := "*" +:+ resolved in
        GoArg.mk Name t PName "event.Proxy(p.Context())"
          AllowNull false (strings.ToLower Name)
      else
        let t := wlPrefix g +:+ "Proxy" in
        GoArg.mk Name t PName ("event." +:+ wlPrefix g +:+ "Proxy(p.Context())")
          AllowNull false ""
  end.

(** One round of the loop over the events: the binding of [wlEv]. *)
Definition buildEvent (f : Flags) (g : Globals) (i : GoInterface.t) (wlEv : RoE)
  : GoEvent.t :=
  let Name := CamelCase g (NameStr wlEv) in
  GoEvent.mk (wlPrefix g) Name (GoInterface.Name i) (snakeCase (NameStr wlEv))
    (GoInterface.Name i +:+ Name)
    (fold_left (fun args arg => args ++ [buildArg f g arg]) (Argss wlEv) []).

Definition ProcessEvents_loop (f : Flags) (roes : list RoE)
    (st : Globals * GoInterface.t) : Globals * GoInterface.t :=
  fold_left
    (fun '(g, i) wlEv =>
       let ev := buildEvent f g i wlEv in
       (Fprintf (ifaceAddRemoveHandlerTemplate ev) (Fprintf (eventTemplate ev) g),
        add_event ev i))
    roes st.

Definition ProcessEvents (f : Flags) (roes : list RoE)
    (st : Globals * GoInterface.t) : Globals * GoInterface.t :=
  let '(g, i) := ProcessEvents_loop f roes st in
  if 0 <? length (GoInterface.Events i)
  then (Fprintf (ifaceDispatchTemplate i) g, i)
  else (g, i).

Definition Constructor (f : Flags) (st : Globals * GoInterface.t)
  : Globals * GoInterface.t :=
  let '(g, i) := st in
  let g := Fprintf (ifaceTypeTemplate i) g in
  if decide (side f = "client")
  then (Fprintf (ifaceConstructorTemplate i) g, i)
  else (Fprintf (ifaceConstructorTemplateId i) g, i).

Definition buildEnum (g : Globals) (i : GoInterface.t) (wlEnum : Enum.t) : GoEnum.t :=
  GoEnum.mk (CamelCase g (Enum.Name wlEnum)) (GoInterface.Name i)
    (fold_left
       (fun entries wlEntry =>
          entries ++ [GoEntry.mk (CamelCase g (Entry.Name wlEntry)) (Entry.Value wlEntry)])
       (Enum.Entries wlEnum) []).

Definition ProcessEnums (st : Globals * GoInterface.t) : Globals * GoInterface.t :=
  let '(g, i) := st in
  (fold_left (fun g wlEnum => Fprintf (ifaceEnums (buildEnum g i wlEnum)) g)
     (Interface.Enums (GoInterface.WlInterface i)) g,
   i).

(** ** The host and the formatter

    [main] creates its output file and [fmtFile] runs [go fmt] on the file
    written.  What the run meets there comes from outside the program:
    whether [os.Create] returns an error, whether [exec.LookPath] finds the
    executable, and what the command does with a file that holds a given
    text. *)

Inductive lookPath :=
  | NotFound (err : string)
  | Found (goex : string).

(** [Create dest] is the error that [os.Create(dest)] returns, if any.
    [Run goex dest text] is the error that [cmd.Run] returns for
    [goex fmt dest], if any, and the text that the command leaves in the
    file [dest], which held [text]. *)
Record Host := mkHost {
  Create : string → option string;
  LookPath : lookPath;
  Run : string → string → string → option string * string
}.

(** How [fmtFile] ends: it logs that there is no executable and returns, it
    returns after the command ran, or it stops the program with
    [log.Fatalf]; [content] is the text in the file then. *)
Inductive formatting :=
  | Skipped (logged : string)
  | Ran (content : string)
  | Failed (message : string) (content : string).

Definition fmtFile (h : Host) (f : Flags) (text : string) : formatting :=
  match LookPath h with
  | NotFound err =>
      Skipped ("go executable cannot found run " +:+ dquote +:+ "go fmt " +:+ output f +:+
               dquote +:+ " yourself: " +:+ err)
  | Found goex =>
      match Run h goex (output f) text with
      | (None, content) => Ran content
      | (Some er2, content) => Failed ("Cannot run cmd: " +:+ er2) content
      end
  end.

(** ** [main] *)

(** A run stops with [log.Fatal] before it has a file to write to, or it
    creates the file [dest], writes [text] to it and ends as [fmtFile]
    ends. *)
Inductive result :=
  | Fatal (message : string)
  | Written (dest : string) (text : string) (after : formatting).

(** The first loop of [main]: the inherited names, qualified. *)
Definition registerInherited (g : Globals) : Globals :=
  fold_left
    (fun g inherit =>
       set_wlNames (<[inherit := "wl." +:+ CamelCase g inherit]> (wlNames g)) g)
    inheritedNames g.

(** The loop that registers the interfaces of the document. *)
Definition registerInterfaces (ifaces : list Interface.t) (g : Globals) : Globals :=
  fold_left (fun g iface => snd (caseAndRegister (stripUnstable g (Interface.Name iface)) g))
    ifaces g.

(** [main] from the reset of [wlNames] to the registration loop: the
    inherited names, then the prefix and the suffix that the flags set. *)
Definition configure (f : Flags) (protocol : Protocol.t) : Globals :=
  let g := set_wlPrefix "" (set_wlNames ∅ initialGlobals) in
  let g := if decide (Protocol.Name protocol ≠ "wayland") then registerInherited g else g in
  let g := if decide (pkgName f ≠ "wl")
           then set_trimPrefix (pkgName f +:+ "_") (set_wlPrefix "wl." g)
           else g in
  if decide (unstable f ≠ "")
  then set_ifTrimSuffix ("_" +:+ unstable f) g
  else g.

(** [main] up to the end of the registration loop. *)
Definition setup (f : Flags) (protocol : Protocol.t) : Globals :=
  registerInterfaces (Protocol.Interfaces protocol) (configure f protocol).

(** The comment, package clause and imports that open the output; [now] is
    the clock's reading, formatted. *)
Definition header (f : Flags) (protocol : Protocol.t) (now : string) (g : Globals) : Globals :=
  let g := Fprintf ("// package " +:+ pkgName f +:+ " acts as a client for the " +:+
                    Protocol.Name protocol +:+ " wayland protocol." +:+ nl +:+ nl) g in
  let g := Fprintf ("// generated by wl-scanner" +:+ nl +:+
                    "// https://github.com/malcolmstill/wl-scanner" +:+ nl) g in
  let g := Fprintf ("// from: " +:+ source f +:+ nl) g in
  let g := Fprintf ("// on " +:+ now +:+ nl) g in
  let g := Fprintf ("package " +:+ pkgName f +:+ nl) g in
  let g := Fprintf ("import (" +:+ nl) g in
  let g := Fprintf ("     " +:+ dquote +:+ "sync" +:+ dquote +:+ nl) g in
  let g := if decide (pkgName f ≠ "wl")
           then Fprintf ("     " +:+ dquote +:+ "github.com/malcolmstill/wl" +:+ dquote +:+ nl) g
           else g in
  Fprintf (")" +:+ nl) g.

(** The requests and the events of an interface, as slices of [RoE]. *)
Definition rs (iface : Interface.t) : list RoE := map RoE_Request (Interface.Requests iface).
Definition es (iface : Interface.t) : list RoE := map RoE_Event (Interface.Events iface).

(** One round of the loop over the interfaces: the variables and [goIface]
    at its end. *)
Definition processInterface (f : Flags) (mode : string) (g : Globals) (iface : Interface.t)
  : Globals * GoInterface.t :=
  let goIface :=
    GoInterface.mk (index (wlNames g) (stripUnstable g (Interface.Name iface)))
      (wlPrefix g) iface [] [] [] in
  if decide (mode = "client") then
    ProcessEnums
      (ProcessRequests (rs (GoInterface.WlInterface goIface))
        (Constructor f (ProcessEvents f (es (GoInterface.WlInterface goIface)) (g, goIface))))
  else
    ProcessEnums
      (ProcessRequests (es (GoInterface.WlInterface goIface))
        (Constructor f (ProcessEvents f (rs (GoInterface.WlInterface goIface)) (g, goIface)))).

(** The loop over the interfaces. *)
Definition processInterfaces (f : Flags) (mode : string) (ifaces : list Interface.t)
    (g : Globals) : Globals :=
  fold_left (fun g iface => fst (processInterface f mode g iface)) ifaces g.

(** [main], from the parsed [protocol] on, that is for a source that is read
    and decoded; [h] is the host. *)
Definition main (f : Flags) (protocol : Protocol.t) (now : string) (h : Host) : result :=
  let dest := output f in
  if decide (dest = "") then Fatal "Must specify -output" else
  let mode := side f in
  if negb (bool_decide (mode = "client") || bool_decide (mode = "server"))
  then Fatal ("Invalid side: " +:+ mode) else
  if decide (source f = "") then Fatal "Must specify a -source" else
  let g := setup f protocol in
  let g := header f protocol now g in
  let g := processInterfaces f mode (Protocol.Interfaces protocol) g in
  match Create h dest with
  | Some err => Fatal err
  | None => Written dest (fileBuffer g) (fmtFile h f (fileBuffer g))
  end.

(** * The first generator, [scanner.go]

    It writes with [fmt.Sprintf] into buffers where the generator above runs
    templates.  Its name derivation and the functions that build the
    parameters and the call of a request are embedded here; [wlNames] is the
    table as its registration loop leaves it. *)

Module scanner.

(** A function that may stop the program with [log.Fatal]. *)
Inductive outcome (A : Type) :=
  | Fatal (message : string)
  | Return (value : A).
Arguments Fatal {A} message.
Arguments Return {A} value.

#[global] Instance outcome_bind : MBind outcome := λ A B k m,
  match m with
  | Fatal message => Fatal message
  | Return value => k value
  end.

Definition CamelCase (wlName : string) : string :=
  let wlName :=
    if strings.HasPrefix wlName "wl_" then strings.TrimPrefix wlName "wl_"
    else wlName in
  let wlName := strings.Replace wlName underscore " " in
  let wlName := strings.Title wlName in
  let wlName := strings.Replace wlName space "" in
  wlName.

(** The type name of an enumeration that an argument refers to, by its own
    name inside the interface or as [interface.enum]. *)
Definition enumArgName (ifaceName enumName : string) : outcome string :=
  if decide (strings.Index enumName dot = (-1)%Z) then
    Return (ifaceName +:+ CamelCase enumName)
  else
    match strings.Split enumName dot with
    | [iface; enum] => Return (CamelCase iface +:+ CamelCase enum)
    | _ => Fatal ("enum args must be " +:+ dquote +:+ "interface.enum" +:+ dquote +:+
                  " format")
    end.

(** The body of the loop of [requestArgs]: the declarations that [arg] adds
    to [args]; an argument that creates an object of a named interface adds
    none. *)
Definition requestArgs_arg (wlNames : gmap string string) (ifaceName : string)
    (args : list string) (arg : Arg.t) : outcome (list string) :=
  if decide (Arg.Type_ arg = "new_id") then
    if decide (Arg.Interface arg = "") then
      Return (args ++ ["iface string"; "version uint32"; Arg.Name arg +:+ " Proxy"])
    else Return args
  else if decide (Arg.Type_ arg = "object" ∧ Arg.Interface arg ≠ "") then
    let argTypeName := index wlNames (Arg.Interface arg) in
    Return (args ++ [Arg.Name arg +:+ " *" +:+ argTypeName])
  else if decide (Arg.Type_ arg = "uint" ∧ Arg.Enum arg ≠ "") then
    name ← enumArgName ifaceName (Arg.Enum arg);
    Return (args ++ [Arg.Name arg +:+ " " +:+ name])
  else
    Return (args ++ [Arg.Name arg +:+ " " +:+ index wlTypes (Arg.Type_ arg)]).

Definition requestArgs (wlNames : gmap string string) (ifaceName : string)
    (req : Request.t) : outcome string :=
  args ← fold_left (λ acc arg, args ← acc; requestArgs_arg wlNames ifaceName args arg)
          (Request.Args req) (Return []);
  Return (strings.Join args ",").

(** The local variables of [requestBody]. *)
Record bodyLocals := mkBodyLocals {
  params : list string;
  bodyBuffer : string;
  hasRetType : string
}.

Definition requestBody_arg (wlNames : gmap string string) (st : bodyLocals) (arg : Arg.t)
  : bodyLocals :=
  if decide (Arg.Type_ arg = "new_id") then
    if decide (Arg.Interface arg ≠ "") then
      let retTypeName := index wlNames (Arg.Interface arg) in
      mkBodyLocals (params st ++ ["Proxy(ret)"])
        (bodyBuffer st +:+ "ret := New" +:+ retTypeName +:+ "(p.Connection())" +:+ nl)
        "ret,"
    else
      mkBodyLocals (params st ++ ["iface"; "version"; Arg.Name arg])
        (bodyBuffer st) (hasRetType st)
  else
    mkBodyLocals (params st ++ [Arg.Name arg]) (bodyBuffer st) (hasRetType st).

Definition requestBody_loop (wlNames : gmap string string) (req : Request.t) : bodyLocals :=
  fold_left (requestBody_arg wlNames) (Request.Args req) (mkBodyLocals [] "" "").

Definition requestBody (wlNames : gmap string string) (req : Request.t)
    (reqCodeName : string) : string :=
  let st := requestBody_loop wlNames req in
  let paramsBuffer :=
    fold_left (λ buffer param, buffer +:+ "," +:+ param) (params st) "" in
  bodyBuffer st +:+ "return " +:+ hasRetType st +:+ " p.Connection().SendRequest(p," +:+
  reqCodeName +:+ paramsBuffer +:+ ")".

End scanner.

(** * Notions used in the statements *)

(** ** What the loops of [main] produce *)

(** The bindings of a list of outgoing entries, and of a list of incoming
    ones, as the loops leave them. *)
Definition requestBindings (g : Globals) (i : GoInterface.t) (roe : list RoE)
  : list GoRequest.t :=
  imap (buildRequest g i) roe.

Definition eventBindings (f : Flags) (g : Globals) (i : GoInterface.t) (roes : list RoE)
  : list GoEvent.t :=
  map (buildEvent f g i) roes.

Definition with_requests (rs : list GoRequest.t) (i : GoInterface.t) : GoInterface.t :=
  GoInterface.mk (GoInterface.Name i) (GoInterface.WL i) (GoInterface.WlInterface i)
    (GoInterface.Requests i ++ rs) (GoInterface.Events i) (GoInterface.Enums i).

Definition with_events (evs : list GoEvent.t) (i : GoInterface.t) : GoInterface.t :=
  GoInterface.mk (GoInterface.Name i) (GoInterface.WL i) (GoInterface.WlInterface i)
    (GoInterface.Requests i) (GoInterface.Events i ++ evs) (GoInterface.Enums i).

(** The type and the handler functions written for one incoming entry. *)
Definition eventText (ev : GoEvent.t) : string :=
  eventTemplate ev +:+ ifaceAddRemoveHandlerTemplate ev.

(** The dispatch routine is written when the interface has an incoming
    entry, after the loop over them. *)
Definition dispatchText (i : GoInterface.t) : string :=
  if 0 <? length (GoInterface.Events i) then ifaceDispatchTemplate i else "".

Definition constructorText (f : Flags) (i : GoInterface.t) : string :=
  ifaceTypeTemplate i +:+
  (if decide (side f = "client") then ifaceConstructorTemplate i
   else ifaceConstructorTemplateId i).

Definition enumsText (g : Globals) (i : GoInterface.t) : string :=
  range (λ wlEnum, ifaceEnums (buildEnum g i wlEnum))
    (Interface.Enums (GoInterface.WlInterface i)).

(** The interface value that a round of [main]'s loop starts from. *)
Definition newGoInterface (g : Globals) (iface : Interface.t) : GoInterface.t :=
  GoInterface.mk (index (wlNames g) (stripUnstable g (Interface.Name iface)))
    (wlPrefix g) iface [] [] [].

(** The lists a role sends and receives: requests go out and events come in
    under the client role; every other role swaps them. *)
Definition outbound (mode : string) (iface : Interface.t) : list RoE :=
  if decide (mode = "client") then rs iface else es iface.

Definition inbound (mode : string) (iface : Interface.t) : list RoE :=
  if decide (mode = "client") then es iface else rs iface.

(** The bindings and the text of one interface. *)
Definition interfaceBinding (f : Flags) (mode : string) (g : Globals) (iface : Interface.t)
  : GoInterface.t :=
  let i0 := newGoInterface g iface in
  GoInterface.mk (GoInterface.Name i0) (GoInterface.WL i0) iface
    (requestBindings g i0 (outbound mode iface))
    (eventBindings f g i0 (inbound mode iface))
    [].

Definition interfaceText (f : Flags) (mode : string) (g : Globals) (iface : Interface.t)
  : string :=
  let i := interfaceBinding f mode g iface in
  range eventText (GoInterface.Events i) +:+
  dispatchText i +:+
  constructorText f i +:+
  range requestTemplate (GoInterface.Requests i) +:+
  enumsText g i.

(** The text that opens the output. *)
Definition headerText (f : Flags) (protocol : Protocol.t) (now : string) : string :=
  "// package " +:+ pkgName f +:+ " acts as a client for the " +:+
  Protocol.Name protocol +:+ " wayland protocol." +:+ nl +:+ nl +:+
  "// generated by wl-scanner" +:+ nl +:+
  "// https://github.com/malcolmstill/wl-scanner" +:+ nl +:+
  "// from: " +:+ source f +:+ nl +:+
  "// on " +:+ now +:+ nl +:+
  "package " +:+ pkgName f +:+ nl +:+
  "import (" +:+ nl +:+
  "     " +:+ dquote +:+ "sync" +:+ dquote +:+ nl +:+
  (if decide (pkgName f ≠ "wl")
   then "     " +:+ dquote +:+ "github.com/malcolmstill/wl" +:+ dquote +:+ nl
   else "") +:+
  ")" +:+ nl.

(** The flags that [main] accepts. *)
Definition accepted (f : Flags) : Prop :=
  output f ≠ "" ∧ (side f = "client" ∨ side f = "server") ∧ source f ≠ "".

(** The text of a run: what it wrote, nothing when it stopped before. *)
Definition written (r : result) : string :=
  match r with
  | Written _ text _ => text
  | Fatal _ => ""
  end.

(** The text that [main] generates for flags it accepts. *)
Definition generated (f : Flags) (protocol : Protocol.t) (now : string) : string :=
  headerText f protocol now +:+
  range (interfaceText f (side f) (setup f protocol)) (Protocol.Interfaces protocol).


(** ** Arguments and how they are decoded *)

(** A new-object-id argument that names its interface. *)
Definition newIdOf (arg : Arg.t) : Prop :=
  Arg.Type_ arg = "new_id" ∧ Arg.Interface arg ≠ "".

(** The identifier that the symbol table gives for the interface an argument
    names. *)
Definition resolved (g : Globals) (arg : Arg.t) : string :=
  index (wlNames g) (stripUnstable g (Arg.Interface arg)).

(** The decode expression of a new-object-id argument under each role. *)
Definition proxyDecode (g : Globals) (arg : Arg.t) : string :=
  "event.Proxy(p.Context()).(*" +:+ resolved g arg +:+ ")".

Definition newObjectDecode (g : Globals) (arg : Arg.t) : string :=
  qualifier (strings.Split (resolved g arg) dot) +:+ "New" +:+
  lastComponent (strings.Split (resolved g arg) dot) +:+
  "(p.Context(), int(event.Uint32()))".

(** Two argument bindings that agree on everything but the decode
    expression. *)
Definition sameButDecode (a b : GoArg.t) : Prop :=
  GoArg.Name a = GoArg.Name b ∧ GoArg.Type_ a = GoArg.Type_ b ∧
  GoArg.PName a = GoArg.PName b ∧ GoArg.AllowNull a = GoArg.AllowNull b ∧
  GoArg.BasicType a = GoArg.BasicType b ∧ GoArg.SnakeName a = GoArg.SnakeName b.

(** The method written for a request that creates an object. *)
Definition newIdMethod (g : Globals) (arg : Arg.t) (r : GoRequest.t) : string :=
  nl +:+ "// " +:+ GoRequest.Name r +:+ " will " +:+ GoRequest.Summary r +:+ "." +:+ nl +:+
  "//" +:+ nl +:+
  GoRequest.Description r +:+ "func (p *" +:+ GoRequest.IfaceName r +:+ ") " +:+
  GoRequest.Name r +:+ "(" +:+
  (if 0 <? String.length (GoRequest.Params r) then GoRequest.Params r +:+ ", " else "") +:+
  "id int) " +:+ GoRequest.Returns r +:+ " {" +:+ nl +:+
  tab +:+ "ret := " +:+ qualifier (strings.Split (resolved g arg) dot) +:+ "New" +:+
  lastComponent (strings.Split (resolved g arg) dot) +:+ "(p.Context(), id)" +:+ nl +:+
  tab +:+ "return ret , " +:+ sendRequestCall r +:+
  nl +:+ "}" +:+ nl.

(** The name a request gives to the parameter of an argument. *)
Definition paramName (arg : Arg.t) : string :=
  if decide (Arg.Name arg = "interface") then "iface" else Arg.Name arg.

(** The six scalar and aggregate tags. *)
Definition basicTags : list string := ["int"; "uint"; "string"; "fd"; "fixed"; "array"].

(** ** Names and their derivation *)

(** The prefix and the suffix that [main] configures. *)
Definition configuredPrefix (f : Flags) : string :=
  if decide (pkgName f ≠ "wl") then pkgName f +:+ "_" else "wl_".

Definition configuredSuffix (f : Flags) : string :=
  if decide (unstable f ≠ "") then "_" +:+ unstable f else "".

(** The keys that the registration loop writes: the names of the interfaces
    of the document, with the unstable suffix stripped. *)
Definition declaredKeys (g : Globals) (ifaces : list Interface.t) : list string :=
  map (λ iface, stripUnstable g (Interface.Name iface)) ifaces.

Fixpoint hasByte (c : ascii) (s : string) : bool :=
  match s with
  | EmptyString => false
  | String x s' => bool_decide (x = c) || hasByte c s'
  end.

(** Concatenation of the pieces of a list. *)
Definition concat (pieces : list string) : string := foldr String.append "" pieces.

(** The derivation in the words of the specification: strip the prefix,
    strip the suffix, split on underscore, title-case each segment,
    concatenate. *)
Definition derive_spec (prefix suffix wireName : string) : string :=
  let s := strings.TrimPrefix wireName prefix in
  let s := strings.TrimSuffix s suffix in
  concat (map strings.Title (strings.Split s underscore)).

(** The same steps with the suffix stripped first. *)
Definition derive_suffix_first (prefix suffix wireName : string) : string :=
  let s := strings.TrimSuffix wireName suffix in
  let s := strings.TrimPrefix s prefix in
  concat (map strings.Title (strings.Split s underscore)).

(** ** What the loop over the arguments of a request collects *)

(** The parameter declarations that one argument adds to [params]. *)
Definition declared (g : Globals) (arg : Arg.t) : list string :=
  if decide (Arg.Type_ arg = "new_id") then
    if decide (Arg.Interface arg ≠ "") then []
    else ["iface string"; "version uint32";
          paramName arg +:+ " " +:+ wlPrefix g +:+ "Proxy"]
  else if decide (Arg.Type_ arg = "object" ∧ Arg.Interface arg ≠ "") then
    [paramName arg +:+ " *" +:+ resolved g arg]
  else [paramName arg +:+ " " +:+ index wlTypes (Arg.Type_ arg)].

(** What one argument adds to the arguments of the send call. *)
Definition passed (g : Globals) (arg : Arg.t) : list string :=
  if decide (Arg.Type_ arg = "new_id") then
    if decide (Arg.Interface arg ≠ "") then [wlPrefix g +:+ "Proxy(ret)"]
    else ["iface"; "version"; paramName arg]
  else [paramName arg].

(** The result type that one argument adds to [returns]. *)
Definition results (g : Globals) (arg : Arg.t) : list string :=
  if decide (Arg.Type_ arg = "new_id") then
    if decide (Arg.Interface arg ≠ "") then ["*" +:+ resolved g arg] else []
  else [].

(** While the two slices share an array, [sendRequestArgs] is the longer
    one. *)
Definition apart (s : slices) : Prop :=
  shared s = true → length (params s) < length (sendRequestArgs s).

(** ** Words and bytes *)

(** The words of a name: the pieces between its underscores and spaces. *)
Definition words (s : string) : list string :=
  strings.Split (strings.Replace s underscore " ") space.

Fixpoint countByte (c : ascii) (s : string) : nat :=
  match s with
  | EmptyString => 0
  | String x s' => (if decide (x = c) then 1 else 0) + countByte c s'
  end.

(** ** Documents and flags of the examples *)

Definition noDescription : Description.t := Description.mk "" "".

(** An object argument of an interface that no document below declares, an
    argument with an unknown type tag, and a document for each. *)
Definition strayArg : Arg.t := Arg.mk "target" "object" "demo_other" "" false "".
Definition bogusArg : Arg.t := Arg.mk "value" "bogus" "" "" false "".

Definition strayProtocol : Protocol.t :=
  Protocol.mk "demo" ""
    [Interface.mk "demo_thing" 1 0 noDescription
       [Request.mk "attach" "" 0 noDescription [strayArg]] [] []].

Definition bogusProtocol : Protocol.t :=
  Protocol.mk "demo" ""
    [Interface.mk "demo_thing" 1 0 noDescription
       [Request.mk "put" "" 0 noDescription [bogusArg]]
       [Event.mk "got" "" 0 noDescription [bogusArg]] []].

Definition clientFlags : Flags := mkFlags "client" "demo.xml" "demo.go" "wl" "".
Definition serverFlags : Flags := mkFlags "server" "demo.xml" "demo.go" "wl" "".

Definition someTime : string := "2024-01-01 00:00:00 +0000".

(** The document of the end-to-end scenario: one interface with one request
    and one event, each with one unsigned argument. *)
Definition demoThing : Interface.t :=
  Interface.mk "demo_thing" 1 0 noDescription
    [Request.mk "do_stuff" "" 0 noDescription [Arg.mk "x" "uint" "" "" false ""]]
    [Event.mk "done" "" 0 noDescription [Arg.mk "result" "uint" "" "" false ""]]
    [].

Definition demoProtocol : Protocol.t := Protocol.mk "demo" "" [demoThing].

Definition laterTime : string := "2024-01-01 00:00:01 +0000".

(** A document that declares an interface named [wl_v6], generated with the
    unstable suffix [v6]; and one whose interface name holds a space. *)
Definition v6Flags : Flags := mkFlags "client" "demo.xml" "demo.go" "wl" "v6".

Definition shortProtocol : Protocol.t :=
  Protocol.mk "demo" "" [Interface.mk "wl_v6" 1 0 noDescription [] [] []].

Definition spacedProtocol : Protocol.t :=
  Protocol.mk "demo" "" [Interface.mk "demo thing" 1 0 noDescription [] [] []].

(** A document named [xdg_shell] generated into the base package, and the
    [wayland] document generated into another package. *)
Definition xdgProtocol : Protocol.t :=
  Protocol.mk "xdg_shell" "" [Interface.mk "xdg_surface" 1 0 noDescription [] [] []].

Definition waylandProtocol : Protocol.t :=
  Protocol.mk "wayland" "" [Interface.mk "wl_display" 1 0 noDescription [] [] []].

Definition otherPackageFlags : Flags := mkFlags "client" "demo.xml" "demo.go" "xdg" "".

(** Two interfaces that refer to each other. *)
Definition demoA : Interface.t :=
  Interface.mk "demo_a" 1 0 noDescription
    [Request.mk "link" "" 0 noDescription [Arg.mk "peer" "object" "demo_b" "" false ""]] [] [].

Definition demoB : Interface.t :=
  Interface.mk "demo_b" 1 0 noDescription
    [Request.mk "link" "" 0 noDescription [Arg.mk "peer" "object" "demo_a" "" true ""]] [] [].

Definition pairProtocol : Protocol.t := Protocol.mk "demo" "" [demoA; demoB].



Definition nullablePeer : Arg.t := Arg.mk "peer" "object" "demo_a" "" true "".

(** A request that creates an object, its new-object-id argument first; and
    the document [pairProtocol] with its interfaces in the other order. *)
Definition createChild : Request.t :=
  Request.mk "create_child" "" 0 noDescription
    [Arg.mk "id" "new_id" "demo_b" "" false ""; Arg.mk "depth" "int" "" "" false ""].

Definition swappedProtocol : Protocol.t := Protocol.mk "demo" "" [demoB; demoA].

(** A request in the manner of [bind], whose new-object-id argument names no
    interface; an interface that holds it; and an interface whose requests
    and event carry new-object-id arguments of both kinds. *)
Definition bindLike : Request.t :=
  Request.mk "bind" "" 0 noDescription
    [Arg.mk "name" "uint" "" "" false ""; Arg.mk "id" "new_id" "" "" false ""].

Definition registryLike : Interface.t :=
  Interface.mk "demo_registry" 1 0 noDescription [bindLike] [] [].

Definition demoFactory : Interface.t :=
  Interface.mk "demo_factory" 1 0 noDescription [createChild; bindLike]
    [Event.mk "made" "" 0 noDescription [Arg.mk "child" "new_id" "demo_b" "" false ""]] [].

(** Two hosts on which every file can be created: one with no [go]
    executable, and one whose [go fmt] returns an error for every file and
    leaves the file as it is. *)
Definition noGo : Host :=
  mkHost (λ _, None) (NotFound "executable file not found in $PATH")
    (λ _ _ text, (None, text)).

Definition rejectingGo : Host :=
  mkHost (λ _, None) (Found "/usr/bin/go") (λ _ _ text, (Some "exit status 2", text)).

(** ** Proof tools *)

Create Rewrite HintDb globals.
Create Rewrite HintDb slices.

(** Refutes a test on the type tag of an argument that the context excludes. *)
Ltac wrong_tag :=
  let H := fresh in
  intros H; first [done | destruct H as [? _]; done].

(** * Properties *)

(** ** The embedding on small inputs *)

Example Title_words : strings.Title "shm pool" = "Shm Pool".
Proof. reflexivity. Qed.

Example Title_after_dash : strings.Title "a-b c_d" = "A-B C_d".
Proof. reflexivity. Qed.

Example Split_empty : strings.Split "" dot = [""].
Proof. reflexivity. Qed.

Example Split_dotted : strings.Split "wl.Surface" dot = ["wl"; "Surface"].
Proof. reflexivity. Qed.

Example TrimSuffix_v6 : strings.TrimSuffix "xdg_surface_v6" "_v6" = "xdg_surface".
Proof. reflexivity. Qed.

Example TrimSpace_line : strings.TrimSpace ("  a b " +:+ tab) = "a b".
Proof. reflexivity. Qed.

Example itoa_12 : itoa 12 = "12".
Proof. reflexivity. Qed.

Example CamelCase_shm_pool : CamelCase initialGlobals "wl_shm_pool" = "ShmPool".
Proof. reflexivity. Qed.

Example snakeCase_shm_pool : snakeCase "wl_shm_pool" = "shmPool".
Proof. reflexivity. Qed.

Example reflow_two_lines :
  reflow ("first" +:+ nl +:+ "  second") = "// first" +:+ nl +:+ "// second" +:+ nl.
Proof. reflexivity. Qed.

(** The end-to-end scenario under the client role: the method of the
    request and the dispatch routine. *)
Example demo_request_method :
  range requestTemplate
    (GoInterface.Requests
       (snd (processInterface clientFlags "client" (setup clientFlags demoProtocol)
               demoThing))) =
  nl +:+ "// DoStuff will ." +:+ nl +:+
  "//" +:+ nl +:+
  "// " +:+ nl +:+
  "func (p *DemoThing) DoStuff(x uint32) error {" +:+ nl +:+
  tab +:+ "return p.Context().SendRequest(p,0,x)" +:+ nl +:+
  "}" +:+ nl.
Proof. by vm_compute. Qed.

Example demo_dispatch :
  dispatchText
    (snd (processInterface clientFlags "client" (setup clientFlags demoProtocol)
            demoThing)) =
  nl +:+ "func (p *DemoThing) Dispatch(event *Event) {" +:+ nl +:+
  tab +:+ "switch event.Opcode {" +:+ nl +:+
  tab +:+ "case 0:" +:+ nl +:+
  tab +:+ tab +:+ "if len(p.doneHandlers) > 0 {" +:+ nl +:+
  tab +:+ tab +:+ tab +:+ "ev := DemoThingDoneEvent{}" +:+ nl +:+
  tab +:+ tab +:+ tab +:+ "ev.Result = event.Uint32()" +:+ nl +:+
  tab +:+ tab +:+ tab +:+ "p.mu.RLock()" +:+ nl +:+
  tab +:+ tab +:+ tab +:+ "for _, h := range p.doneHandlers {" +:+ nl +:+
  tab +:+ tab +:+ tab +:+ tab +:+ "h.HandleDemoThingDone(ev)" +:+ nl +:+
  tab +:+ tab +:+ tab +:+ "}" +:+ nl +:+
  tab +:+ tab +:+ tab +:+ "p.mu.RUnlock()" +:+ nl +:+
  tab +:+ tab +:+ "}" +:+ nl +:+
  tab +:+ "}" +:+ nl +:+
  "}" +:+ nl.
Proof. by vm_compute. Qed.

(** Appending to a slice that shares its array with another: the fourth
    parameter overwrites the cell that [append(params, ...)] wrote. *)
Example shared_array_overwritten :
  GoRequest.Args
    (buildRequest initialGlobals (GoInterface.mk "Demo" "" demoThing [] [] []) 0
       (RoE_Request
          (Request.mk "make" "" 0 noDescription
             [Arg.mk "a" "uint" "" "" false ""; Arg.mk "b" "uint" "" "" false "";
              Arg.mk "c" "uint" "" "" false ""; Arg.mk "id" "new_id" "demo_thing" "" false "";
              Arg.mk "d" "object" "demo_thing" "" false ""]))) =
  ",a uint32,b uint32,c uint32,d *,d".
Proof. by vm_compute. Qed.

(** ** Text *)

Lemma append_cons (x : ascii) (a b : string) : String x a +:+ b = String x (a +:+ b).
Proof. done. Qed.

Lemma append_nil_l (a : string) : "" +:+ a = a.
Proof. done. Qed.

Lemma append_assoc (a b c : string) : (a +:+ b) +:+ c = a +:+ b +:+ c.
Proof. induction a as [|x a IH]; [done | by rewrite !append_cons, IH]. Qed.

Lemma append_nil_r (a : string) : a +:+ "" = a.
Proof. induction a as [|x a IH]; [done | by rewrite append_cons, IH]. Qed.

(** ** What the builders read

    A builder reads the names and prefixes among the variables and the name
    of the interface it works on; it only adds to the buffer and to the
    lists of the interface. *)

Lemma fileBuffer_Fprintf (t : string) (g : Globals) :
  fileBuffer (Fprintf t g) = fileBuffer g +:+ t.
Proof. done. Qed.

Lemma Fprintf_Fprintf (a b : string) (g : Globals) :
  Fprintf b (Fprintf a g) = Fprintf (a +:+ b) g.
Proof. unfold Fprintf, set_fileBuffer; simpl. by rewrite append_assoc. Qed.

Lemma Fprintf_nil (g : Globals) : Fprintf "" g = g.
Proof. destruct g. unfold Fprintf, set_fileBuffer; simpl. by rewrite append_nil_r. Qed.

Lemma buildRequest_Fprintf t g r i order wlReq :
  buildRequest (Fprintf t g) (add_request r i) order wlReq = buildRequest g i order wlReq.
Proof. done. Qed.

Lemma buildEvent_Fprintf f t g e i wlEv :
  buildEvent f (Fprintf t g) (add_event e i) wlEv = buildEvent f g i wlEv.
Proof. done. Qed.

Lemma ProcessRequests_from_eq roe : ∀ order g i,
  ProcessRequests_from order roe (g, i) =
  (Fprintf (range requestTemplate (imap (λ k, buildRequest g i (order + k)) roe)) g,
   with_requests (imap (λ k, buildRequest g i (order + k)) roe) i).
Proof.
  induction roe as [|wlReq roe IH]; intros order g i; simpl.
  - rewrite Fprintf_nil. destruct i. unfold with_requests; simpl. by rewrite app_nil_r.
  - rewrite IH, Fprintf_Fprintf. rewrite Nat.add_0_r.
    assert (imap (λ k, buildRequest (Fprintf (requestTemplate (buildRequest g i order wlReq)) g)
                         (add_request (buildRequest g i order wlReq) i) (S order + k)) roe
            = imap ((λ k, buildRequest g i (order + k)) ∘ S) roe) as ->.
    { apply imap_ext. intros k x _. simpl. rewrite buildRequest_Fprintf.
      by rewrite Nat.add_succ_r. }
    f_equal. unfold with_requests, add_request; simpl. by rewrite <- app_assoc.
Qed.

Lemma ProcessRequests_eq roe g i :
  ProcessRequests roe (g, i) =
  (Fprintf (range requestTemplate (requestBindings g i roe)) g,
   with_requests (requestBindings g i roe) i).
Proof. apply ProcessRequests_from_eq. Qed.

Lemma ProcessEvents_loop_eq f roes : ∀ g i,
  ProcessEvents_loop f roes (g, i) =
  (Fprintf (range eventText (eventBindings f g i roes)) g,
   with_events (eventBindings f g i roes) i).
Proof.
  unfold ProcessEvents_loop, eventBindings.
  induction roes as [|wlEv roes IH]; intros g i.
  - simpl. rewrite Fprintf_nil. destruct i. unfold with_events; simpl. by rewrite app_nil_r.
  - cbn [fold_left map]. rewrite IH, !Fprintf_Fprintf.
    assert (map (buildEvent f
                   (Fprintf (eventTemplate (buildEvent f g i wlEv) +:+
                             ifaceAddRemoveHandlerTemplate (buildEvent f g i wlEv)) g)
                   (add_event (buildEvent f g i wlEv) i)) roes
            = map (buildEvent f g i) roes) as ->.
    { apply map_ext. intros x. apply buildEvent_Fprintf. }
    f_equal.
    + change (range eventText (buildEvent f g i wlEv :: map (buildEvent f g i) roes))
        with (eventText (buildEvent f g i wlEv) +:+
              range eventText (map (buildEvent f g i) roes)).
      f_equal. symmetry. exact (append_assoc _ _ _).
    + unfold with_events, add_event; simpl. by rewrite <- app_assoc.
Qed.

Lemma ProcessEvents_eq f roes g i :
  ProcessEvents f roes (g, i) =
  (Fprintf (range eventText (eventBindings f g i roes) +:+
            dispatchText (with_events (eventBindings f g i roes) i)) g,
   with_events (eventBindings f g i roes) i).
Proof.
  unfold ProcessEvents, dispatchText. rewrite ProcessEvents_loop_eq.
  destruct (0 <? _).
  - by rewrite Fprintf_Fprintf.
  - by rewrite append_nil_r.
Qed.

Lemma Constructor_eq f g i :
  Constructor f (g, i) = (Fprintf (constructorText f i) g, i).
Proof.
  unfold Constructor, constructorText.
  destruct (decide _); by rewrite Fprintf_Fprintf.
Qed.

Lemma ProcessEnums_eq g i :
  ProcessEnums (g, i) = (Fprintf (enumsText g i) g, i).
Proof.
  unfold ProcessEnums, enumsText. f_equal.
  generalize (Interface.Enums (GoInterface.WlInterface i)) as enums.
  intros enums. revert g.
  induction enums as [|e enums IH]; intros g; simpl.
  - by rewrite Fprintf_nil.
  - rewrite IH, Fprintf_Fprintf. done.
Qed.

Lemma processInterface_eq f mode g iface :
  processInterface f mode g iface =
  (Fprintf (interfaceText f mode g iface) g, interfaceBinding f mode g iface).
Proof.
  unfold processInterface, interfaceText, interfaceBinding, outbound, inbound.
  fold (newGoInterface g iface).
  destruct (decide (mode = "client"));
    rewrite ProcessEvents_eq, Constructor_eq, ProcessRequests_eq, ProcessEnums_eq;
    rewrite !Fprintf_Fprintf, !append_assoc; reflexivity.
Qed.

Lemma processInterfaces_eq f mode ifaces : ∀ g,
  processInterfaces f mode ifaces g = Fprintf (range (interfaceText f mode g) ifaces) g.
Proof.
  unfold processInterfaces.
  induction ifaces as [|iface ifaces IH]; intros g.
  - by rewrite Fprintf_nil.
  - cbn [fold_left]. rewrite processInterface_eq. cbn [fst].
    rewrite IH, Fprintf_Fprintf. f_equal.
Qed.

Lemma header_eq f protocol now g :
  header f protocol now g = Fprintf (headerText f protocol now) g.
Proof.
  unfold header, headerText.
  destruct (decide (pkgName f ≠ "wl")); rewrite !Fprintf_Fprintf, !append_assoc; done.
Qed.

Lemma fileBuffer_registerInherited g :
  fileBuffer (registerInherited g) = fileBuffer g.
Proof.
  unfold registerInherited. generalize inheritedNames as names. intros names. revert g.
  induction names as [|n names IH]; intros g; [done |].
  cbn [fold_left]. by rewrite IH.
Qed.

Lemma fileBuffer_registerInterfaces ifaces : ∀ g,
  fileBuffer (registerInterfaces ifaces g) = fileBuffer g.
Proof.
  unfold registerInterfaces.
  induction ifaces as [|i ifaces IH]; intros g; [done |].
  cbn [fold_left]. by rewrite IH.
Qed.

(** Reading a variable after an assignment. *)
Lemma wlNames_set_wlNames m g : wlNames (set_wlNames m g) = m.
Proof. reflexivity. Qed.

Lemma wlPrefix_set_wlNames m g : wlPrefix (set_wlNames m g) = wlPrefix g.
Proof. reflexivity. Qed.

Lemma trimPrefix_set_wlNames m g : trimPrefix (set_wlNames m g) = trimPrefix g.
Proof. reflexivity. Qed.

Lemma ifTrimSuffix_set_wlNames m g : ifTrimSuffix (set_wlNames m g) = ifTrimSuffix g.
Proof. reflexivity. Qed.

Lemma fileBuffer_set_wlNames m g : fileBuffer (set_wlNames m g) = fileBuffer g.
Proof. reflexivity. Qed.

Lemma wlNames_set_wlPrefix s g : wlNames (set_wlPrefix s g) = wlNames g.
Proof. reflexivity. Qed.

Lemma wlPrefix_set_wlPrefix s g : wlPrefix (set_wlPrefix s g) = s.
Proof. reflexivity. Qed.

Lemma trimPrefix_set_wlPrefix s g : trimPrefix (set_wlPrefix s g) = trimPrefix g.
Proof. reflexivity. Qed.

Lemma ifTrimSuffix_set_wlPrefix s g : ifTrimSuffix (set_wlPrefix s g) = ifTrimSuffix g.
Proof. reflexivity. Qed.

Lemma fileBuffer_set_wlPrefix s g : fileBuffer (set_wlPrefix s g) = fileBuffer g.
Proof. reflexivity. Qed.

Lemma wlNames_set_trimPrefix s g : wlNames (set_trimPrefix s g) = wlNames g.
Proof. reflexivity. Qed.

Lemma wlPrefix_set_trimPrefix s g : wlPrefix (set_trimPrefix s g) = wlPrefix g.
Proof. reflexivity. Qed.

Lemma trimPrefix_set_trimPrefix s g : trimPrefix (set_trimPrefix s g) = s.
Proof. reflexivity. Qed.

Lemma ifTrimSuffix_set_trimPrefix s g : ifTrimSuffix (set_trimPrefix s g) = ifTrimSuffix g.
Proof. reflexivity. Qed.

Lemma fileBuffer_set_trimPrefix s g : fileBuffer (set_trimPrefix s g) = fileBuffer g.
Proof. reflexivity. Qed.

Lemma wlNames_set_ifTrimSuffix s g : wlNames (set_ifTrimSuffix s g) = wlNames g.
Proof. reflexivity. Qed.

Lemma wlPrefix_set_ifTrimSuffix s g : wlPrefix (set_ifTrimSuffix s g) = wlPrefix g.
Proof. reflexivity. Qed.

Lemma trimPrefix_set_ifTrimSuffix s g : trimPrefix (set_ifTrimSuffix s g) = trimPrefix g.
Proof. reflexivity. Qed.

Lemma ifTrimSuffix_set_ifTrimSuffix s g : ifTrimSuffix (set_ifTrimSuffix s g) = s.
Proof. reflexivity. Qed.

Lemma fileBuffer_set_ifTrimSuffix s g : fileBuffer (set_ifTrimSuffix s g) = fileBuffer g.
Proof. reflexivity. Qed.

Lemma wlNames_set_fileBuffer s g : wlNames (set_fileBuffer s g) = wlNames g.
Proof. reflexivity. Qed.

Lemma wlPrefix_set_fileBuffer s g : wlPrefix (set_fileBuffer s g) = wlPrefix g.
Proof. reflexivity. Qed.

Lemma trimPrefix_set_fileBuffer s g : trimPrefix (set_fileBuffer s g) = trimPrefix g.
Proof. reflexivity. Qed.

Lemma ifTrimSuffix_set_fileBuffer s g : ifTrimSuffix (set_fileBuffer s g) = ifTrimSuffix g.
Proof. reflexivity. Qed.

Lemma fileBuffer_set_fileBuffer s g : fileBuffer (set_fileBuffer s g) = s.
Proof. reflexivity. Qed.

#[global] Hint Rewrite
  wlNames_set_wlNames wlPrefix_set_wlNames trimPrefix_set_wlNames ifTrimSuffix_set_wlNames
  fileBuffer_set_wlNames wlNames_set_wlPrefix wlPrefix_set_wlPrefix trimPrefix_set_wlPrefix
  ifTrimSuffix_set_wlPrefix fileBuffer_set_wlPrefix wlNames_set_trimPrefix wlPrefix_set_trimPrefix
  trimPrefix_set_trimPrefix ifTrimSuffix_set_trimPrefix fileBuffer_set_trimPrefix wlNames_set_ifTrimSuffix
  wlPrefix_set_ifTrimSuffix trimPrefix_set_ifTrimSuffix ifTrimSuffix_set_ifTrimSuffix fileBuffer_set_ifTrimSuffix
  wlNames_set_fileBuffer wlPrefix_set_fileBuffer trimPrefix_set_fileBuffer ifTrimSuffix_set_fileBuffer
  fileBuffer_set_fileBuffer
  : globals.

Lemma fileBuffer_setup f protocol : fileBuffer (setup f protocol) = "".
Proof.
  unfold setup. rewrite fileBuffer_registerInterfaces. unfold configure. cbv zeta.
  destruct (decide (unstable f ≠ "")); destruct (decide (pkgName f ≠ "wl"));
    destruct (decide (Protocol.Name protocol ≠ "wayland"));
    autorewrite with globals; rewrite ?fileBuffer_registerInherited;
    autorewrite with globals; reflexivity.
Qed.

(** [main] writes the header and then the text of every interface, in the
    order of the document, built against the symbol table of [setup]. *)
Lemma main_eq f protocol now h :
  accepted f →
  main f protocol now h =
  match Create h (output f) with
  | Some err => Fatal err
  | None =>
      Written (output f) (generated f protocol now) (fmtFile h f (generated f protocol now))
  end.
Proof.
  intros (Hout & Hside & Hsrc). unfold main, generated.
  destruct (decide (output f = "")) as [|_]; [done |].
  assert (negb (bool_decide (side f = "client") || bool_decide (side f = "server")) = false)
    as ->.
  { destruct Hside as [-> | ->]; done. }
  destruct (decide (source f = "")) as [|_]; [done |].
  cbv zeta. rewrite header_eq, processInterfaces_eq.
  rewrite !fileBuffer_Fprintf, fileBuffer_setup, append_nil_l. done.
Qed.

(** ** Opcodes *)

Lemma itoa_inj (n m : nat) : itoa n = itoa m → n = m.
Proof.
  unfold itoa. intros H.
  apply (f_equal NilEmpty.uint_of_string) in H.
  rewrite !NilEmpty.usu in H.
  apply DecimalNat.Unsigned.to_uint_inj. congruence.
Qed.

(** The loop over the arguments leaves the opcode and the name alone. *)
Lemma requestArg_Order g st arg :
  GoRequest.Order (req (requestArg g st arg)) = GoRequest.Order (req st).
Proof. unfold requestArg. repeat case_decide; reflexivity. Qed.

Lemma requestArg_Name g st arg :
  GoRequest.Name (req (requestArg g st arg)) = GoRequest.Name (req st).
Proof. unfold requestArg. repeat case_decide; reflexivity. Qed.

Lemma fold_requestArg_Order g args : ∀ st,
  GoRequest.Order (req (fold_left (requestArg g) args st)) = GoRequest.Order (req st).
Proof.
  induction args as [|arg args IH]; intros st; [done |].
  cbn [fold_left]. by rewrite IH, requestArg_Order.
Qed.

Lemma fold_requestArg_Name g args : ∀ st,
  GoRequest.Name (req (fold_left (requestArg g) args st)) = GoRequest.Name (req st).
Proof.
  induction args as [|arg args IH]; intros st; [done |].
  cbn [fold_left]. by rewrite IH, requestArg_Name.
Qed.

Lemma buildRequest_Order g i order wlReq :
  GoRequest.Order (buildRequest g i order wlReq) = order.
Proof.
  unfold buildRequest. cbv zeta. unfold set_signature. cbn [GoRequest.Order].
  by rewrite fold_requestArg_Order.
Qed.

Lemma buildRequest_Name g i order wlReq :
  GoRequest.Name (buildRequest g i order wlReq) = CamelCase g (NameStr wlReq).
Proof.
  unfold buildRequest. cbv zeta. unfold set_signature. cbn [GoRequest.Name].
  by rewrite fold_requestArg_Name.
Qed.

Lemma snd_processInterface f mode g iface :
  snd (processInterface f mode g iface) = interfaceBinding f mode g iface.
Proof. by rewrite processInterface_eq. Qed.

Lemma append_inj_r (a b c : string) : a +:+ c = b +:+ c → a = b.
Proof.
  intros H.
  assert (String.length a = String.length b) as Hlen.
  { apply (f_equal String.length) in H.
    assert (∀ x y, String.length (x +:+ y) = String.length x + String.length y) as Happ.
    { intros x y. induction x as [|ch x IH]; [done |].
      rewrite append_cons. cbn [String.length]. by rewrite IH. }
    rewrite !Happ in H. lia. }
  revert b H Hlen. induction a as [|x a IH]; intros [|y b] H Hlen; try done.
  rewrite !append_cons in H. injection H as -> H. f_equal. apply IH; [done |].
  by injection Hlen.
Qed.

Lemma caseLabel_inj (n m : nat) : caseLabel n = caseLabel m → n = m.
Proof.
  unfold caseLabel. intros H.
  do 3 apply String.app_inj in H.
  by apply append_inj_r, itoa_inj in H.
Qed.

(** The arguments of an incoming binding are those of the entry, in order. *)
Lemma fold_left_snoc_map {A B} (h : A → B) (l : list A) : ∀ acc,
  fold_left (λ acc x, acc ++ [h x]) l acc = acc ++ map h l.
Proof.
  induction l as [|x l IH]; intros acc; cbn [fold_left map].
  - by rewrite app_nil_r.
  - by rewrite IH, <- app_assoc.
Qed.

Lemma buildEvent_Args f g i wlEv :
  GoEvent.Args (buildEvent f g i wlEv) = map (buildArg f g) (Argss wlEv).
Proof. unfold buildEvent. cbn [GoEvent.Args]. by rewrite fold_left_snoc_map. Qed.

(** The method written for a request ends with the call of the send
    primitive. *)
Lemma requestTemplate_call r :
  ∃ head, requestTemplate r = head +:+ sendRequestCall r +:+ nl +:+ "}" +:+ nl.
Proof.
  unfold requestTemplate.
  set (start := nl +:+ "// " +:+ GoRequest.Name r +:+ " will " +:+ GoRequest.Summary r +:+
                "." +:+ nl +:+ "//").
  set (construct := nl +:+ tab +:+ "ret := " +:+ GoRequest.Prefix r +:+ "New" +:+
                    GoRequest.NewIdInterface r +:+ "(p.Context(), id)" +:+ nl +:+
                    tab +:+ "return ret , ").
  destruct (GoRequest.HasNewId r); [destruct (0 <? String.length (GoRequest.Params r)) |].
  - exists (start +:+
            (nl +:+ GoRequest.Description r +:+ "func (p *" +:+ GoRequest.IfaceName r +:+
             ") " +:+ GoRequest.Name r +:+ "(" +:+ GoRequest.Params r +:+ ", id int) " +:+
             GoRequest.Returns r +:+ " {") +:+ construct).
    subst start construct. rewrite !append_assoc. reflexivity.
  - exists (start +:+
            (nl +:+ GoRequest.Description r +:+ "func (p *" +:+ GoRequest.IfaceName r +:+
             ") " +:+ GoRequest.Name r +:+ "(id int) " +:+ GoRequest.Returns r +:+ " {") +:+
            construct).
    subst start construct. rewrite !append_assoc. reflexivity.
  - exists (start +:+
            nl +:+ GoRequest.Description r +:+ "func (p *" +:+ GoRequest.IfaceName r +:+
            ") " +:+ GoRequest.Name r +:+ "(" +:+ GoRequest.Params r +:+ ") " +:+
            GoRequest.Returns r +:+ " {" +:+ nl +:+ tab +:+ "return ").
    subst start construct. rewrite !append_assoc. reflexivity.
Qed.

(** The dispatch routine, its cases written out. *)
Lemma ifaceDispatchTemplate_cases i :
  ifaceDispatchTemplate i =
  nl +:+ "func (p *" +:+ GoInterface.Name i +:+ ") Dispatch(event *" +:+
  GoInterface.WL i +:+ "Event) {" +:+
  nl +:+ tab +:+ "switch event.Opcode {" +:+
  concat
    (imap (λ n e,
             nl +:+ tab +:+ "case " +:+ itoa n +:+ ":" +:+
             nl +:+
             tab +:+ tab +:+ "if len(p." +:+ GoEvent.PName e +:+ "Handlers) > 0 {" +:+ nl +:+
             tab +:+ tab +:+ tab +:+ "ev := " +:+ GoInterface.Name i +:+ GoEvent.Name e +:+
             "Event{}" +:+
             range dispatchArg (GoEvent.Args e) +:+
             nl +:+ tab +:+ tab +:+ tab +:+ "p.mu.RLock()" +:+ nl +:+
             tab +:+ tab +:+ tab +:+ "for _, h := range p." +:+ GoEvent.PName e +:+
             "Handlers {" +:+ nl +:+
             tab +:+ tab +:+ tab +:+ tab +:+ "h.Handle" +:+ GoEvent.EName e +:+ "(ev)" +:+ nl +:+
             tab +:+ tab +:+ tab +:+ "}" +:+ nl +:+
             tab +:+ tab +:+ tab +:+ "p.mu.RUnlock()" +:+ nl +:+
             tab +:+ tab +:+ "}")
          (GoInterface.Events i)) +:+
  nl +:+ tab +:+ "}" +:+ nl +:+
  "}" +:+ nl.
Proof.
  unfold ifaceDispatchTemplate, dispatchCases. do 10 f_equal. unfold concat. f_equal.
  apply imap_ext. intros n e _. unfold dispatchCase, caseLabel, caseBody.
  rewrite !append_assoc. reflexivity.
Qed.

(** C1: whatever the schema, the role and the configuration, the bindings of
    an interface number its outgoing entries by position: the binding built
    for the entry at index [n] of the outgoing list (the requests under the
    client role, the events otherwise) stands at index [n], bears the entry's
    name and carries opcode [n], and the method written for it ends with the
    call of the send primitive that passes [n].  The dispatch routine that is
    written when the incoming list is not empty is a switch on the opcode
    with one case for each entry of the incoming list, in the order of the
    list: the case at index [n] is labelled [case n:] and builds and hands on
    the payload of the entry at index [n]; different positions have different
    labels.  Routine and methods are part of the text written for the
    interface. *)
Theorem opcode_invariant (f : Flags) (mode : string) (g : Globals) (iface : Interface.t) :
  let i := snd (processInterface f mode g iface) in
  (length (GoInterface.Requests i) = length (outbound mode iface) ∧
   ∀ n entry, outbound mode iface !! n = Some entry →
     ∃ r, GoInterface.Requests i !! n = Some r ∧
          GoRequest.Name r = CamelCase g (NameStr entry) ∧
          GoRequest.Order r = n ∧
          ∃ head,
            requestTemplate r =
            head +:+ "p.Context().SendRequest(p," +:+ itoa n +:+ GoRequest.Args r +:+ ")" +:+
            nl +:+ "}" +:+ nl) ∧
  (length (GoInterface.Events i) = length (inbound mode iface) ∧
   (∀ n entry, inbound mode iface !! n = Some entry →
     ∃ e, GoInterface.Events i !! n = Some e ∧
          GoEvent.Name e = CamelCase g (NameStr entry) ∧
          GoEvent.Args e = map (buildArg f g) (Argss entry)) ∧
   ifaceDispatchTemplate i =
     nl +:+ "func (p *" +:+ GoInterface.Name i +:+ ") Dispatch(event *" +:+
     GoInterface.WL i +:+ "Event) {" +:+
     nl +:+ tab +:+ "switch event.Opcode {" +:+
     concat
       (imap (λ n e,
                nl +:+ tab +:+ "case " +:+ itoa n +:+ ":" +:+
                nl +:+
                tab +:+ tab +:+ "if len(p." +:+ GoEvent.PName e +:+ "Handlers) > 0 {" +:+ nl +:+
                tab +:+ tab +:+ tab +:+ "ev := " +:+ GoInterface.Name i +:+ GoEvent.Name e +:+
                "Event{}" +:+
                range dispatchArg (GoEvent.Args e) +:+
                nl +:+ tab +:+ tab +:+ tab +:+ "p.mu.RLock()" +:+ nl +:+
                tab +:+ tab +:+ tab +:+ "for _, h := range p." +:+ GoEvent.PName e +:+
                "Handlers {" +:+ nl +:+
                tab +:+ tab +:+ tab +:+ tab +:+ "h.Handle" +:+ GoEvent.EName e +:+ "(ev)" +:+
                nl +:+
                tab +:+ tab +:+ tab +:+ "}" +:+ nl +:+
                tab +:+ tab +:+ tab +:+ "p.mu.RUnlock()" +:+ nl +:+
                tab +:+ tab +:+ "}")
             (GoInterface.Events i)) +:+
     nl +:+ tab +:+ "}" +:+ nl +:+
     "}" +:+ nl ∧
   (∀ n m, itoa n = itoa m → n = m)) ∧
  fileBuffer (fst (processInterface f mode g iface)) =
    fileBuffer g +:+
    (range eventText (GoInterface.Events i) +:+
     (if 0 <? length (inbound mode iface) then ifaceDispatchTemplate i else "") +:+
     constructorText f i +:+
     range requestTemplate (GoInterface.Requests i) +:+
     enumsText g i).
Proof.
  intros i. subst i. rewrite processInterface_eq. cbn [fst snd].
  split; [|split].
  - unfold interfaceBinding. cbn [GoInterface.Requests]. unfold requestBindings.
    split; [by rewrite length_imap |].
    intros n entry Hn. eexists. rewrite list_lookup_imap, Hn. split; [done |].
    rewrite buildRequest_Name. split; [done |].
    rewrite buildRequest_Order. split; [done |].
    destruct (requestTemplate_call (buildRequest g (newGoInterface g iface) n entry))
      as (head & ->).
    exists head. unfold sendRequestCall.
    rewrite buildRequest_Order, !append_assoc. reflexivity.
  - split; [|split; [|split; [apply ifaceDispatchTemplate_cases | apply itoa_inj]]].
    + unfold interfaceBinding. cbn [GoInterface.Events]. unfold eventBindings.
      by rewrite length_map.
    + intros n entry Hn. unfold interfaceBinding. cbn [GoInterface.Events].
      unfold eventBindings. eexists. rewrite list_lookup_fmap, Hn.
      split; [done |]. split; [done |]. apply buildEvent_Args.
  - rewrite fileBuffer_Fprintf. unfold interfaceText, dispatchText.
    do 3 f_equal. unfold interfaceBinding. cbn [GoInterface.Events].
    unfold eventBindings. by rewrite length_map.
Qed.

(** ** Arguments that create an object *)

Lemma requestArg_newId g st arg :
  newIdOf arg →
  GoRequest.HasNewId (req (requestArg g st arg)) = true ∧
  GoRequest.NewIdInterface (req (requestArg g st arg)) =
    lastComponent (strings.Split (resolved g arg) dot) ∧
  GoRequest.Prefix (req (requestArg g st arg)) =
    qualifier (strings.Split (resolved g arg) dot).
Proof.
  intros [Ht Hi]. unfold requestArg.
  destruct (decide (Arg.Type_ arg = "new_id")); [|done].
  destruct (decide (Arg.Interface arg ≠ "")); [|done].
  done.
Qed.

Lemma requestArg_other g st arg :
  ¬ newIdOf arg →
  GoRequest.HasNewId (req (requestArg g st arg)) = GoRequest.HasNewId (req st) ∧
  GoRequest.NewIdInterface (req (requestArg g st arg)) = GoRequest.NewIdInterface (req st) ∧
  GoRequest.Prefix (req (requestArg g st arg)) = GoRequest.Prefix (req st).
Proof.
  intros Hn. unfold requestArg.
  destruct (decide (Arg.Type_ arg = "new_id")) as [Ht|].
  - destruct (decide (Arg.Interface arg ≠ "")) as [Hi|]; [|done].
    destruct Hn. by split.
  - by destruct (decide _).
Qed.

(** After the loop over the arguments, the request's new-id fields are those
    that one new-object-id argument set, or those it started with when there
    is no such argument. *)
Lemma fold_requestArg_newId g args : ∀ st,
  (∃ arg, arg ∈ args ∧ newIdOf arg ∧
     GoRequest.HasNewId (req (fold_left (requestArg g) args st)) = true ∧
     GoRequest.NewIdInterface (req (fold_left (requestArg g) args st)) =
       lastComponent (strings.Split (resolved g arg) dot) ∧
     GoRequest.Prefix (req (fold_left (requestArg g) args st)) =
       qualifier (strings.Split (resolved g arg) dot)) ∨
  ((∀ arg, arg ∈ args → ¬ newIdOf arg) ∧
     GoRequest.HasNewId (req (fold_left (requestArg g) args st)) =
       GoRequest.HasNewId (req st) ∧
     GoRequest.NewIdInterface (req (fold_left (requestArg g) args st)) =
       GoRequest.NewIdInterface (req st) ∧
     GoRequest.Prefix (req (fold_left (requestArg g) args st)) = GoRequest.Prefix (req st)).
Proof.
  induction args as [|arg args IH]; intros st.
  - right. split; [|done]. intros arg Hin. by apply elem_of_nil in Hin.
  - cbn [fold_left].
    destruct (IH (requestArg g st arg)) as [(a & Hin & Ha & H)|(Hnone & Hh & Hn & Hp)].
    + left. exists a. split; [by right | done].
    + assert (Decision (newIdOf arg)) as [Hnew|Hnew] by (unfold newIdOf; apply _).
      * left. exists arg. split; [by left |]. split; [done |].
        rewrite Hh, Hn, Hp. by apply requestArg_newId.
      * right. split.
        { intros a Hin. apply elem_of_cons in Hin as [->|Hin]; [done | by apply Hnone]. }
        rewrite Hh, Hn, Hp. by apply requestArg_other.
Qed.

Lemma wlTypes_new_id : wlTypes !! "new_id" = None.
Proof. reflexivity. Qed.

Lemma wlTypes_object : wlTypes !! "object" = None.
Proof. reflexivity. Qed.

Lemma buildArg_newId f g arg :
  newIdOf arg →
  buildArg f g arg =
  GoArg.mk (CamelCase g (Arg.Name arg)) ("*" +:+ resolved g arg) (snakeCase (Arg.Name arg))
    (if decide (side f = "server") then newObjectDecode g arg else proxyDecode g arg)
    (Arg.AllowNull arg) false "".
Proof.
  intros [Ht Hi]. unfold buildArg. rewrite Ht, wlTypes_new_id.
  fold (resolved g arg).
  destruct (decide (side f = "server")) as [Hs|Hs].
  - rewrite decide_True by done. done.
  - rewrite decide_False by (intros (_ & ? & _); done).
    rewrite decide_True by done. done.
Qed.

Lemma buildArg_other f f' g arg :
  ¬ newIdOf arg → buildArg f g arg = buildArg f' g arg.
Proof.
  intros Hn. unfold buildArg. destruct (wlTypes !! Arg.Type_ arg); [done |].
  rewrite !(decide_False (P := _ ∧ side _ = _ ∧ _)); [done | |].
  all: intros (? & _ & ?); apply Hn; by split.
Qed.

(** ** The variables after registration *)

(** Registering names changes the table and nothing else. *)
Lemma registerInherited_fields g :
  trimPrefix (registerInherited g) = trimPrefix g ∧
  ifTrimSuffix (registerInherited g) = ifTrimSuffix g ∧
  wlPrefix (registerInherited g) = wlPrefix g.
Proof.
  unfold registerInherited. generalize inheritedNames as names. intros names. revert g.
  induction names as [|n names IH]; intros g; [done |].
  cbn [fold_left]. destruct (IH (set_wlNames (<[n:="wl." +:+ CamelCase g n]> (wlNames g)) g))
    as (-> & -> & ->). done.
Qed.

Lemma registerInterfaces_fields ifaces : ∀ g,
  trimPrefix (registerInterfaces ifaces g) = trimPrefix g ∧
  ifTrimSuffix (registerInterfaces ifaces g) = ifTrimSuffix g ∧
  wlPrefix (registerInterfaces ifaces g) = wlPrefix g.
Proof.
  unfold registerInterfaces.
  induction ifaces as [|i ifaces IH]; intros g; [done |].
  cbn [fold_left].
  destruct (IH (snd (caseAndRegister (stripUnstable g (Interface.Name i)) g)))
    as (-> & -> & ->). done.
Qed.

Lemma configure_fields f protocol :
  trimPrefix (configure f protocol) = configuredPrefix f ∧
  ifTrimSuffix (configure f protocol) = configuredSuffix f ∧
  wlPrefix (configure f protocol) = if decide (pkgName f ≠ "wl") then "wl." else "".
Proof.
  unfold configure, configuredPrefix, configuredSuffix. cbv zeta.
  destruct (registerInherited_fields (set_wlPrefix "" (set_wlNames ∅ initialGlobals)))
    as (Ht & Hs & Hw).
  destruct (decide (unstable f ≠ "")); destruct (decide (pkgName f ≠ "wl"));
    destruct (decide (Protocol.Name protocol ≠ "wayland"));
    autorewrite with globals; rewrite ?Ht, ?Hs, ?Hw; autorewrite with globals;
    repeat split; reflexivity.
Qed.

Lemma setup_fields f protocol :
  trimPrefix (setup f protocol) = configuredPrefix f ∧
  ifTrimSuffix (setup f protocol) = configuredSuffix f ∧
  wlPrefix (setup f protocol) = if decide (pkgName f ≠ "wl") then "wl." else "".
Proof.
  unfold setup.
  destruct (registerInterfaces_fields (Protocol.Interfaces protocol) (configure f protocol))
    as (-> & -> & ->).
  apply configure_fields.
Qed.

(** ** Failures

    [main] stops with a fatal message before it generates anything only for
    a missing output path, an unknown side and a missing source.  Past these
    checks it generates the text whatever the document holds.  It stops with
    the error of [os.Create] when it cannot create the file; otherwise it
    writes the text and runs the formatter, and the run can still stop
    there, with the message of [fmtFile], when the formatter returns an
    error. *)

Lemma headerText_nonempty f protocol now text : headerText f protocol now +:+ text ≠ "".
Proof. unfold headerText. rewrite !append_cons. discriminate. Qed.

Lemma main_writes f protocol now h :
  accepted f →
  ∃ text,
    text ≠ "" ∧
    main f protocol now h =
    match Create h (output f) with
    | Some err => Fatal err
    | None => Written (output f) text (fmtFile h f text)
    end.
Proof.
  intros Hf. rewrite main_eq by done. eexists. split; [|done].
  apply headerText_nonempty.
Qed.

Lemma main_created f protocol now h :
  accepted f → Create h (output f) = None →
  main f protocol now h =
  Written (output f) (generated f protocol now) (fmtFile h f (generated f protocol now)).
Proof. intros Hf Hc. by rewrite main_eq, Hc by done. Qed.

Lemma accepted_clientFlags : accepted clientFlags.
Proof. repeat split; try discriminate. by left. Qed.

(** How [fmtFile] ends, by what it meets. *)
Lemma fmtFile_NotFound h f text err :
  LookPath h = NotFound err → ∃ logged, fmtFile h f text = Skipped logged.
Proof. intros H. unfold fmtFile. rewrite H. by eexists. Qed.

Lemma fmtFile_Found h f text goex :
  LookPath h = Found goex →
  fmtFile h f text =
  match Run h goex (output f) text with
  | (None, content) => Ran content
  | (Some er2, content) => Failed ("Cannot run cmd: " +:+ er2) content
  end.
Proof. intros H. unfold fmtFile. by rewrite H. Qed.

(** Not C3 as stated: the object argument [target] names [demo_other], which
    nothing registered.  On every host where the file can be created the
    run creates [demo.go] and writes a text to it, with the method [Attach]
    and its parameter [target] whose pointer type has no name.  Where there is no [go] executable the run
    ends there, with no error; where [go fmt] returns an error the run
    stops after the write, with the message of [fmtFile]. *)
Lemma unresolved_symbol_output_written :
  wlNames (setup clientFlags strayProtocol)
    !! stripUnstable (setup clientFlags strayProtocol) (Arg.Interface strayArg) = None ∧
  ∃ text,
    text ≠ "" ∧
    (∀ h, Create h "demo.go" = None →
          main clientFlags strayProtocol someTime h =
          Written "demo.go" text (fmtFile h clientFlags text)) ∧
    (∃ logged, main clientFlags strayProtocol someTime noGo =
               Written "demo.go" text (Skipped logged)) ∧
    main clientFlags strayProtocol someTime rejectingGo =
      Written "demo.go" text (Failed "Cannot run cmd: exit status 2" text) ∧
    GoRequest.Params <$>
      GoInterface.Requests
        (snd (processInterface clientFlags "client" (setup clientFlags strayProtocol)
                (Interface.mk "demo_thing" 1 0 noDescription
                   [Request.mk "attach" "" 0 noDescription [strayArg]] [] [])))
    = ["target *"].
Proof.
  split; [by vm_compute |].
  exists (generated clientFlags strayProtocol someTime).
  split; [apply headerText_nonempty |].
  split; [intros h Hc; by apply (main_created clientFlags), Hc; apply accepted_clientFlags |].
  split; [eexists; by rewrite main_eq by apply accepted_clientFlags |].
  split; [by rewrite main_eq by apply accepted_clientFlags |].
  by vm_compute.
Qed.

(** C3, amended: an argument of type object or new-object-id whose interface
    name, with the unstable suffix stripped, is not in the symbol table
    raises no error of its own and does not keep the text from being
    written.  The name resolves to the empty identifier: an incoming
    argument gets the pointer type with no name, an outgoing object becomes
    a parameter of that type, an outgoing new id makes the call return it
    and construct through [New] with no name.  [main] stops with the error
    of [os.Create] when it cannot create the output file; otherwise it
    writes the text, which is not empty, and after that the run ends as
    [fmtFile] ends: with a logged line when no [go] executable is found,
    with no error when [go fmt] returns none, and with the fatal message
    [Cannot run cmd: ] and the error when [go fmt] returns one. *)
Theorem unresolved_symbol_resolves_empty
    (f : Flags) (protocol : Protocol.t) (now : string) (h : Host) (arg : Arg.t) :
  accepted f →
  Arg.Type_ arg = "object" ∨ Arg.Type_ arg = "new_id" →
  Arg.Interface arg ≠ "" →
  wlNames (setup f protocol)
    !! stripUnstable (setup f protocol) (Arg.Interface arg) = None →
  (∃ text,
     text ≠ "" ∧
     main f protocol now h =
       match Create h (output f) with
       | Some err => Fatal err
       | None => Written (output f) text (fmtFile h f text)
       end ∧
     (∀ err, LookPath h = NotFound err → ∃ logged, fmtFile h f text = Skipped logged) ∧
     (∀ goex, LookPath h = Found goex →
        fmtFile h f text =
        match Run h goex (output f) text with
        | (None, content) => Ran content
        | (Some er2, content) => Failed ("Cannot run cmd: " +:+ er2) content
        end)) ∧
  resolved (setup f protocol) arg = "" ∧
  GoArg.Type_ (buildArg f (setup f protocol) arg) = "*" ∧
  (Arg.Type_ arg = "object" → ∀ st,
     requestArg (setup f protocol) st arg =
     mkRequestLocals (returns st)
       (append_sendRequestArgs (paramName arg)
          (append_params (paramName arg +:+ " *") (sl st)))
       (req st)) ∧
  (Arg.Type_ arg = "new_id" → ∀ st,
     returns (requestArg (setup f protocol) st arg) = returns st ++ ["*"] ∧
     GoRequest.HasNewId (req (requestArg (setup f protocol) st arg)) = true ∧
     GoRequest.Prefix (req (requestArg (setup f protocol) st arg)) = "" ∧
     GoRequest.NewIdInterface (req (requestArg (setup f protocol) st arg)) = "").
Proof.
  intros Hf Hty Hi Hnone.
  assert (resolved (setup f protocol) arg = "") as Hres.
  { unfold resolved, index. by rewrite Hnone. }
  split; [|split; [done |]; split; [|split]].
  - destruct (main_writes f protocol now h Hf) as (text & Htext & Hmain).
    exists text. split; [done |]. split; [done |].
    split; [apply fmtFile_NotFound | apply fmtFile_Found].
  - unfold buildArg. fold (resolved (setup f protocol) arg). rewrite Hres.
    destruct Hty as [-> | ->].
    + rewrite wlTypes_object. repeat case_decide; try done.
      destruct (Arg.AllowNull arg); naive_solver.
    + rewrite wlTypes_new_id. repeat case_decide; try done.
      naive_solver.
  - intros Hobj st. unfold requestArg. fold (paramName arg).
    fold (resolved (setup f protocol) arg). rewrite Hres, Hobj.
    rewrite decide_False by discriminate. rewrite decide_True by done. done.
  - intros Hnew st. unfold requestArg. fold (resolved (setup f protocol) arg).
    rewrite Hres, Hnew. rewrite !decide_True by done. done.
Qed.

(** Not C5 as stated: the tag [bogus] is in no table.  On every host where
    the file can be created the run creates [demo.go] and writes a text to
    it, in which the incoming argument is bound as a generic proxy and the
    outgoing one as a parameter with no type.  Where there is no [go] executable the run ends there,
    with no error; where [go fmt] returns an error the run stops after the
    write, with the message of [fmtFile]. *)
Lemma unknown_wire_type_output_written :
  wlTypes !! Arg.Type_ bogusArg = None ∧
  Arg.Type_ bogusArg ≠ "object" ∧ Arg.Type_ bogusArg ≠ "new_id" ∧
  ∃ text,
    text ≠ "" ∧
    (∀ h, Create h "demo.go" = None →
          main clientFlags bogusProtocol someTime h =
          Written "demo.go" text (fmtFile h clientFlags text)) ∧
    (∃ logged, main clientFlags bogusProtocol someTime noGo =
               Written "demo.go" text (Skipped logged)) ∧
    main clientFlags bogusProtocol someTime rejectingGo =
      Written "demo.go" text (Failed "Cannot run cmd: exit status 2" text) ∧
    GoArg.Type_ (buildArg clientFlags (setup clientFlags bogusProtocol) bogusArg)
      = "Proxy" ∧
    GoRequest.Params
      (buildRequest (setup clientFlags bogusProtocol)
         (newGoInterface (setup clientFlags bogusProtocol)
            (Interface.mk "demo_thing" 1 0 noDescription [] [] []))
         0 (RoE_Request (Request.mk "put" "" 0 noDescription [bogusArg])))
      = "value ".
Proof.
  split; [by vm_compute |]. split; [discriminate |]. split; [discriminate |].
  exists (generated clientFlags bogusProtocol someTime).
  split; [apply headerText_nonempty |].
  split; [intros h Hc; by apply (main_created clientFlags), Hc; apply accepted_clientFlags |].
  split; [eexists; by rewrite main_eq by apply accepted_clientFlags |].
  split; [by rewrite main_eq by apply accepted_clientFlags |].
  split; by vm_compute.
Qed.

(** C5, amended: each of the six scalar and aggregate tags has a target type
    in [wlTypes] and that type a decode operation in [bufTypesMap].  An
    argument whose tag is in no table and is neither [object] nor [new_id]
    raises no error of its own and does not keep the text from being
    written.  Incoming, it is bound as the generic proxy type of the base
    package, [Proxy] when the package is [wl] and [wl.Proxy] otherwise, and
    decoded by the method of that name on the event; that decode is a plain
    assignment to the field unless the argument is nullable, when it goes
    through a variable with an empty name.  Outgoing, it becomes a parameter
    with an empty type.  [main] stops with the error of [os.Create] when it
    cannot create the output file; otherwise it writes the text, which is
    not empty, and after that the run ends as [fmtFile] ends:
    with a logged line when no [go] executable is found, with no error when
    [go fmt] returns none, and with the fatal message [Cannot run cmd: ] and
    the error when [go fmt] returns one. *)
Theorem unknown_wire_type_passes
    (f : Flags) (protocol : Protocol.t) (now : string) (h : Host) (arg : Arg.t) :
  accepted f →
  wlTypes !! Arg.Type_ arg = None →
  Arg.Type_ arg ≠ "object" → Arg.Type_ arg ≠ "new_id" →
  (∀ tag, tag ∈ basicTags →
     ∃ t op, wlTypes !! tag = Some t ∧ bufTypesMap !! t = Some op) ∧
  (∃ text,
     text ≠ "" ∧
     main f protocol now h =
       match Create h (output f) with
       | Some err => Fatal err
       | None => Written (output f) text (fmtFile h f text)
       end ∧
     (∀ err, LookPath h = NotFound err → ∃ logged, fmtFile h f text = Skipped logged) ∧
     (∀ goex, LookPath h = Found goex →
        fmtFile h f text =
        match Run h goex (output f) text with
        | (None, content) => Ran content
        | (Some er2, content) => Failed ("Cannot run cmd: " +:+ er2) content
        end)) ∧
  wlPrefix (setup f protocol) = (if decide (pkgName f ≠ "wl") then "wl." else "") ∧
  buildArg f (setup f protocol) arg =
    GoArg.mk (CamelCase (setup f protocol) (Arg.Name arg))
      (wlPrefix (setup f protocol) +:+ "Proxy") (snakeCase (Arg.Name arg))
      ("event." +:+ wlPrefix (setup f protocol) +:+ "Proxy(p.Context())")
      (Arg.AllowNull arg) false "" ∧
  dispatchArg (buildArg f (setup f protocol) arg) =
    nl +:+ tab +:+ tab +:+ tab +:+
    (if Arg.AllowNull arg then
       " := event." +:+ wlPrefix (setup f protocol) +:+ "Proxy(p.Context())" +:+ nl +:+
       tab +:+ tab +:+ tab +:+ "if  != nil {" +:+ nl +:+
       tab +:+ tab +:+ tab +:+ tab +:+ "ev." +:+
       CamelCase (setup f protocol) (Arg.Name arg) +:+ " = .(" +:+
       wlPrefix (setup f protocol) +:+ "Proxy)" +:+ nl +:+
       tab +:+ tab +:+ tab +:+ "}"
     else
       "ev." +:+ CamelCase (setup f protocol) (Arg.Name arg) +:+ " = event." +:+
       wlPrefix (setup f protocol) +:+ "Proxy(p.Context())") ∧
  (∀ st,
     requestArg (setup f protocol) st arg =
     mkRequestLocals (returns st)
       (append_params (paramName arg +:+ " ")
          (append_sendRequestArgs (paramName arg) (sl st)))
       (req st)).
Proof.
  intros Hf Hnone Hobj Hnew.
  assert (buildArg f (setup f protocol) arg =
          GoArg.mk (CamelCase (setup f protocol) (Arg.Name arg))
            (wlPrefix (setup f protocol) +:+ "Proxy") (snakeCase (Arg.Name arg))
            ("event." +:+ wlPrefix (setup f protocol) +:+ "Proxy(p.Context())")
            (Arg.AllowNull arg) false "") as Harg.
  { unfold buildArg. rewrite Hnone. rewrite !decide_False by wrong_tag. done. }
  split; [|split; [|split; [|split; [done |]; split]]].
  - intros tag Hin. unfold basicTags in Hin.
    repeat (apply elem_of_cons in Hin as [-> | Hin]); [.. | by apply elem_of_nil in Hin];
      do 2 eexists; split; reflexivity.
  - destruct (main_writes f protocol now h Hf) as (text & Htext & Hmain).
    exists text. split; [done |]. split; [done |].
    split; [apply fmtFile_NotFound | apply fmtFile_Found].
  - by destruct (setup_fields f protocol) as (_ & _ & ->).
  - rewrite Harg. unfold dispatchArg.
    cbn [GoArg.BasicType GoArg.AllowNull GoArg.SnakeName GoArg.BufMethod GoArg.Name
         GoArg.Type_ negb andb].
    destruct (Arg.AllowNull arg); rewrite ?append_nil_l, ?append_assoc; reflexivity.
  - intros st. unfold requestArg. fold (paramName arg).
    rewrite !decide_False by wrong_tag.
    unfold index. rewrite Hnone. done.
Qed.

(** ** Repeated runs *)

(** Not C4 as stated: the same document, role and flags, run at two times,
    give two texts, on every host where the file can be created. *)
Lemma runs_differ_in_time :
  ∃ text text',
    (∀ h, Create h "demo.go" = None →
          main clientFlags demoProtocol someTime h =
          Written "demo.go" text (fmtFile h clientFlags text)) ∧
    (∀ h, Create h "demo.go" = None →
          main clientFlags demoProtocol laterTime h =
          Written "demo.go" text' (fmtFile h clientFlags text')) ∧
    text ≠ text'.
Proof.
  exists (generated clientFlags demoProtocol someTime).
  exists (generated clientFlags demoProtocol laterTime).
  split; [intros h Hc; by apply (main_created clientFlags), Hc; apply accepted_clientFlags |].
  split; [intros h Hc; by apply (main_created clientFlags), Hc; apply accepted_clientFlags |].
  apply String.eqb_neq. by vm_compute.
Qed.

(** The fatal checks of [main] read neither the clock nor the host. *)
Lemma main_rejected f protocol :
  ¬ accepted f → ∃ message, ∀ now h, main f protocol now h = Fatal message.
Proof.
  intros Hf. unfold main.
  destruct (decide (output f = "")) as [|Hout]; [by eexists |].
  destruct (negb _) eqn:Hside; [by eexists |].
  destruct (decide (source f = "")) as [|Hsrc]; [by eexists |].
  destruct Hf. split; [done |]. split; [|done].
  apply negb_false_iff, orb_true_iff in Hside as [H|H]; apply bool_decide_eq_true in H;
    [by left | by right].
Qed.

(** C4, amended: for a fixed document, role and flags, every run either
    stops with the same fatal message or writes the same text but for the
    line that gives the time of the run: the text before that line and the
    text after it are the same in all runs, so two runs that read the same
    time write byte-identical text.  A run writes where it can create the
    file, stops with the error of [os.Create] where it cannot, and ends as
    [fmtFile] ends on the text it wrote. *)
Theorem runs_agree_but_for_time (f : Flags) (protocol : Protocol.t) :
  (∃ message, ∀ now h, main f protocol now h = Fatal message) ∨
  (∃ before after, ∀ now h,
     main f protocol now h =
     match Create h (output f) with
     | Some err => Fatal err
     | None =>
         Written (output f) (before +:+ "// on " +:+ now +:+ nl +:+ after)
           (fmtFile h f (before +:+ "// on " +:+ now +:+ nl +:+ after))
     end).
Proof.
  destruct (decide (output f ≠ "" ∧ (side f = "client" ∨ side f = "server")
                    ∧ source f ≠ "")) as [Hf|Hf].
  - right.
    exists ("// package " +:+ pkgName f +:+ " acts as a client for the " +:+
            Protocol.Name protocol +:+ " wayland protocol." +:+ nl +:+ nl +:+
            "// generated by wl-scanner" +:+ nl +:+
            "// https://github.com/malcolmstill/wl-scanner" +:+ nl +:+
            "// from: " +:+ source f +:+ nl).
    exists ("package " +:+ pkgName f +:+ nl +:+
            "import (" +:+ nl +:+
            "     " +:+ dquote +:+ "sync" +:+ dquote +:+ nl +:+
            (if decide (pkgName f ≠ "wl")
             then "     " +:+ dquote +:+ "github.com/malcolmstill/wl" +:+ dquote +:+ nl
             else "") +:+
            ")" +:+ nl +:+
            range (interfaceText f (side f) (setup f protocol))
              (Protocol.Interfaces protocol)).
    intros now h. rewrite main_eq by exact Hf.
    assert (generated f protocol now =
            ("// package " +:+ pkgName f +:+ " acts as a client for the " +:+
             Protocol.Name protocol +:+ " wayland protocol." +:+ nl +:+ nl +:+
             "// generated by wl-scanner" +:+ nl +:+
             "// https://github.com/malcolmstill/wl-scanner" +:+ nl +:+
             "// from: " +:+ source f +:+ nl) +:+ "// on " +:+ now +:+ nl +:+
            "package " +:+ pkgName f +:+ nl +:+
            "import (" +:+ nl +:+
            "     " +:+ dquote +:+ "sync" +:+ dquote +:+ nl +:+
            (if decide (pkgName f ≠ "wl")
             then "     " +:+ dquote +:+ "github.com/malcolmstill/wl" +:+ dquote +:+ nl
             else "") +:+
            ")" +:+ nl +:+
            range (interfaceText f (side f) (setup f protocol))
              (Protocol.Interfaces protocol)) as ->; [|done].
    unfold generated, headerText. rewrite !append_assoc. reflexivity.
  - left. by apply main_rejected.
Qed.

(** ** The symbol table *)

(** After the registration loop a declared key holds its own identifier, and
    every other key what it held before. *)
Lemma registerInterfaces_lookup ifaces : ∀ g k,
  wlNames (registerInterfaces ifaces g) !! k =
  if decide (k ∈ declaredKeys g ifaces) then Some (CamelCase g k) else wlNames g !! k.
Proof.
  induction ifaces as [|i ifaces IH]; intros g k.
  - unfold declaredKeys. cbn [map]. rewrite decide_False by apply not_elem_of_nil. done.
  - change (registerInterfaces (i :: ifaces) g)
      with (registerInterfaces ifaces
              (snd (caseAndRegister (stripUnstable g (Interface.Name i)) g))).
    rewrite IH.
    change (declaredKeys (snd (caseAndRegister (stripUnstable g (Interface.Name i)) g)) ifaces)
      with (declaredKeys g ifaces).
    change (CamelCase (snd (caseAndRegister (stripUnstable g (Interface.Name i)) g)) k)
      with (CamelCase g k).
    change (wlNames (snd (caseAndRegister (stripUnstable g (Interface.Name i)) g)))
      with (<[stripUnstable g (Interface.Name i) :=
                CamelCase g (stripUnstable g (Interface.Name i))]> (wlNames g)).
    change (declaredKeys g (i :: ifaces))
      with (stripUnstable g (Interface.Name i) :: declaredKeys g ifaces).
    destruct (decide (k ∈ declaredKeys g ifaces)) as [Hin|Hin].
    + rewrite decide_True by (by right). done.
    + destruct (decide (k = stripUnstable g (Interface.Name i))) as [->|Hne].
      * rewrite decide_True by (by left). by rewrite lookup_insert_eq.
      * rewrite decide_False by (by intros [?|?]%elem_of_cons).
        by rewrite lookup_insert_ne.
Qed.

(** The table of [setup]: a declared key holds the identifier derived from
    it under the configured prefix; another key holds what [configure] left. *)
Lemma setup_lookup f protocol k :
  wlNames (setup f protocol) !! k =
  if decide (k ∈ declaredKeys (setup f protocol) (Protocol.Interfaces protocol))
  then Some (CamelCase (setup f protocol) k)
  else wlNames (configure f protocol) !! k.
Proof.
  unfold setup at 1. rewrite registerInterfaces_lookup.
  assert (∀ x, stripUnstable (setup f protocol) x = stripUnstable (configure f protocol) x)
    as Hstrip.
  { intros x. unfold stripUnstable, setup.
    by destruct (registerInterfaces_fields (Protocol.Interfaces protocol)
                   (configure f protocol)) as (_ & -> & _). }
  assert (∀ x, CamelCase (setup f protocol) x = CamelCase (configure f protocol) x)
    as Hcamel.
  { intros x. unfold CamelCase, setup.
    by destruct (registerInterfaces_fields (Protocol.Interfaces protocol)
                   (configure f protocol)) as (-> & _ & _). }
  assert (declaredKeys (setup f protocol) (Protocol.Interfaces protocol) =
          declaredKeys (configure f protocol) (Protocol.Interfaces protocol)) as ->.
  { unfold declaredKeys. apply map_ext. intros iface. apply Hstrip. }
  by rewrite Hcamel.
Qed.

(** ** Names *)

Lemma toTitle_space b : (if b : bool then strings.toTitle space else space) = space.
Proof. by destruct b. Qed.

Lemma toTitle_not_space c : c ≠ space → strings.toTitle c ≠ space.
Proof.
  destruct c as [[] [] [] [] [] [] [] []]; intros Hc H; vm_compute in H;
    first [discriminate H | by apply Hc].
Qed.

Lemma Replace_cons s c old new :
  strings.Replace (String c s) old new =
  (if decide (c = old) then new else String c "") +:+ strings.Replace s old new.
Proof. done. Qed.

(** Title-casing the text with its underscores turned into spaces and then
    deleting the spaces title-cases each underscore-separated segment, when
    the text itself holds no space. *)
Lemma camel_from s : ∀ prev,
  hasByte space s = false →
  strings.Replace (strings.Title_from prev (strings.Replace s underscore " ")) space "" =
  match strings.Split s underscore with
  | seg :: segs => strings.Title_from prev seg +:+ concat (map strings.Title segs)
  | [] => ""
  end.
Proof.
  induction s as [|c s IH]; intros prev Hs; [done |].
  cbn [hasByte] in Hs. apply orb_false_iff in Hs as [Hc Hs].
  apply bool_decide_eq_false in Hc.
  rewrite Replace_cons. cbn [strings.Split].
  destruct (decide (c = underscore)) as [->|Hu].
  - change (" " +:+ strings.Replace s underscore " ")
      with (String space (strings.Replace s underscore " ")).
    cbn [strings.Title_from]. rewrite toTitle_space, Replace_cons.
    rewrite decide_True by done. rewrite append_nil_l, IH by done.
    change (strings.Title_from prev "") with "". rewrite append_nil_l.
    by destruct (strings.Split s underscore).
  - rewrite append_cons, append_nil_l. cbn [strings.Title_from].
    rewrite Replace_cons. rewrite decide_False.
    2: { destruct (strings.isSeparator prev); [by apply toTitle_not_space | done]. }
    rewrite append_cons, append_nil_l, IH by done.
    destruct (strings.Split s underscore) as [|seg segs]; [done |].
    cbn [strings.Title_from]. by rewrite append_cons.
Qed.

Lemma hasByte_drop c n : ∀ s, hasByte c s = false → hasByte c (strings.drop n s) = false.
Proof.
  induction n as [|n IH]; intros [|x s] H; try done.
  cbn [hasByte] in H. apply orb_false_iff in H as [_ H]. by apply IH.
Qed.

Lemma hasByte_take c n : ∀ s, hasByte c s = false → hasByte c (strings.take n s) = false.
Proof.
  induction n as [|n IH]; intros [|x s] H; try done.
  cbn [hasByte] in H. apply orb_false_iff in H as [Hx H].
  cbn [strings.take hasByte]. rewrite Hx. by apply IH.
Qed.

Lemma hasByte_TrimPrefix c s prefix :
  hasByte c s = false → hasByte c (strings.TrimPrefix s prefix) = false.
Proof. intros H. unfold strings.TrimPrefix. destruct (strings.HasPrefix _ _); [by apply hasByte_drop | done]. Qed.

Lemma hasByte_TrimSuffix c s suffix :
  hasByte c s = false → hasByte c (strings.TrimSuffix s suffix) = false.
Proof. intros H. unfold strings.TrimSuffix. destruct (strings.HasSuffix _ _); [by apply hasByte_take | done]. Qed.

(** [CamelCase] of a name with no space, after [stripUnstable]. *)
Lemma CamelCase_stripUnstable g name :
  hasByte space name = false →
  CamelCase g (stripUnstable g name) =
  derive_suffix_first (trimPrefix g) (ifTrimSuffix g) name.
Proof.
  intros H. unfold CamelCase, stripUnstable, derive_suffix_first, strings.Title. cbv zeta.
  rewrite camel_from by (by apply hasByte_TrimPrefix, hasByte_TrimSuffix).
  by destruct (strings.Split _ _).
Qed.

(** Stripping a prefix and a suffix. *)
Lemma length_drop n : ∀ s, String.length (strings.drop n s) = String.length s - n.
Proof. induction n as [|n IH]; intros [|x s]; try done. cbn. apply IH. Qed.

Lemma drop_drop a : ∀ b s, strings.drop a (strings.drop b s) = strings.drop (b + a) s.
Proof.
  intros b. induction b as [|b IH]; intros s; [done |].
  destruct s as [|x s]; [destruct a; reflexivity |]. cbn. apply IH.
Qed.

Lemma drop_take k : ∀ n s, strings.drop k (strings.take n s) = strings.take (n - k) (strings.drop k s).
Proof.
  induction k as [|k IH]; intros n s.
  - by rewrite Nat.sub_0_r.
  - destruct n as [|n]; [reflexivity |].
    destruct s as [|x s]; [cbn; by destruct (n - k) |]. cbn. apply IH.
Qed.

Lemma HasPrefix_take pre : ∀ n s,
  String.length pre ≤ n → strings.HasPrefix (strings.take n s) pre = strings.HasPrefix s pre.
Proof.
  induction pre as [|p pre IH]; intros n s H; [by destruct (strings.take n s), s |].
  destruct n as [|n]; [cbn in H; lia |].
  destruct s as [|x s]; [done |]. cbn.
  destruct (decide (p = x)); [|done]. apply IH. cbn in H. lia.
Qed.

Lemma TrimPrefix_if s pre b :
  strings.HasPrefix s pre = b →
  strings.TrimPrefix s pre = if b then strings.drop (String.length pre) s else s.
Proof. intros <-. reflexivity. Qed.

Lemma TrimSuffix_if s suf b :
  strings.HasSuffix s suf = b →
  strings.TrimSuffix s suf =
  if b then strings.take (String.length s - String.length suf) s else s.
Proof. intros <-. reflexivity. Qed.

(** Below the prefix, the text has the suffix that the whole text has. *)
Lemma HasSuffix_drop s pre suf :
  String.length pre + String.length suf ≤ String.length s →
  strings.HasSuffix (strings.drop (String.length pre) s) suf = strings.HasSuffix s suf.
Proof.
  intros Hlen. unfold strings.HasSuffix.
  rewrite length_drop, drop_drop.
  replace (String.length pre + (String.length s - String.length pre - String.length suf))
    with (String.length s - String.length suf) by lia.
  f_equal.
  destruct (_ <=? String.length s - _) eqn:E1; destruct (_ <=? String.length s) eqn:E2;
    try done.
  - apply Nat.leb_le in E1. apply Nat.leb_gt in E2. lia.
  - apply Nat.leb_gt in E1. apply Nat.leb_le in E2. lia.
Qed.

(** The prefix and the suffix can be stripped in either order when the text
    is long enough to hold both. *)
Lemma Trim_comm s pre suf :
  String.length pre + String.length suf ≤ String.length s →
  strings.TrimPrefix (strings.TrimSuffix s suf) pre =
  strings.TrimSuffix (strings.TrimPrefix s pre) suf.
Proof.
  intros Hlen.
  destruct (strings.HasSuffix s suf) eqn:Hs; destruct (strings.HasPrefix s pre) eqn:Hp;
    rewrite (TrimSuffix_if s suf _ Hs), (TrimPrefix_if s pre _ Hp).
  - rewrite (TrimPrefix_if _ pre true) by (rewrite HasPrefix_take; [done | lia]).
    rewrite (TrimSuffix_if _ suf true) by (by rewrite HasSuffix_drop).
    rewrite drop_take, length_drop. f_equal. lia.
  - rewrite (TrimPrefix_if _ pre false) by (rewrite HasPrefix_take; [done | lia]).
    by rewrite (TrimSuffix_if _ suf true).
  - by rewrite (TrimSuffix_if _ suf false) by (by rewrite HasSuffix_drop).
  - by rewrite (TrimSuffix_if _ suf false).
Qed.

(** Not C6 as stated: [wl_v6] under the suffix token [v6] gets the
    identifier [Wl], because the suffix goes first and takes the underscore
    that the prefix needs; the steps in the order of the claim give [V6], or
    nothing when the token is stripped without an underscore.  And
    [demo thing] gets [DemoThing], while splitting on underscore keeps the
    space. *)
Lemma derivation_differs :
  (wlNames (setup v6Flags shortProtocol)
     !! stripUnstable (setup v6Flags shortProtocol) "wl_v6" = Some "Wl" ∧
   derive_spec "wl_" "_v6" "wl_v6" = "V6" ∧
   derive_spec "wl_" "v6" "wl_v6" = "") ∧
  (wlNames (setup clientFlags spacedProtocol)
     !! stripUnstable (setup clientFlags spacedProtocol) "demo thing" = Some "DemoThing" ∧
   derive_spec "wl_" "" "demo thing" = "Demo Thing").
Proof. repeat split; by vm_compute. Qed.

(** C6, amended: for every wire interface name that holds no space, the
    identifier is the result of stripping first the suffix (an underscore and
    the unstable token, when a token is configured), then the package prefix
    ([wl_] by default), splitting on underscore, title-casing each segment
    and concatenating; it is what the table holds for the name once the
    document declares it.  With the default prefix and no token,
    [wl_shm_pool] gives [ShmPool]; under the token [v6], [xdg_surface_v6]
    gives what [xdg_surface] gives.  A name that is at least as long as the
    prefix and the suffix together gives the same identifier when the prefix
    is stripped first. *)
Theorem identifier_derivation (f : Flags) (protocol : Protocol.t) (name : string) :
  hasByte space name = false →
  (CamelCase (setup f protocol) (stripUnstable (setup f protocol) name) =
     derive_suffix_first (configuredPrefix f) (configuredSuffix f) name) ∧
  (∀ iface, iface ∈ Protocol.Interfaces protocol → Interface.Name iface = name →
     wlNames (setup f protocol) !! stripUnstable (setup f protocol) name =
       Some (derive_suffix_first (configuredPrefix f) (configuredSuffix f) name) ∧
     GoInterface.Name (newGoInterface (setup f protocol) iface) =
       derive_suffix_first (configuredPrefix f) (configuredSuffix f) name) ∧
  (pkgName f = "wl" → unstable f = "" →
     CamelCase (setup f protocol) (stripUnstable (setup f protocol) "wl_shm_pool")
       = "ShmPool") ∧
  (unstable f = "v6" →
     CamelCase (setup f protocol) (stripUnstable (setup f protocol) "xdg_surface_v6") =
     CamelCase (setup f protocol) (stripUnstable (setup f protocol) "xdg_surface")) ∧
  (String.length (configuredPrefix f) + String.length (configuredSuffix f)
     ≤ String.length name →
     CamelCase (setup f protocol) (stripUnstable (setup f protocol) name) =
     derive_spec (configuredPrefix f) (configuredSuffix f) name).
Proof.
  intros Hname.
  destruct (setup_fields f protocol) as (Hpre & Hsuf & _).
  assert (CamelCase (setup f protocol) (stripUnstable (setup f protocol) name) =
          derive_suffix_first (configuredPrefix f) (configuredSuffix f) name) as Hid.
  { rewrite CamelCase_stripUnstable by done. by rewrite Hpre, Hsuf. }
  split; [done |]. split; [|split; [|split]].
  - intros iface Hin <-.
    assert (wlNames (setup f protocol)
              !! stripUnstable (setup f protocol) (Interface.Name iface) =
            Some (derive_suffix_first (configuredPrefix f) (configuredSuffix f)
                    (Interface.Name iface))) as Hlook.
    { rewrite setup_lookup, decide_True; [by rewrite Hid |].
      unfold declaredKeys. apply list_elem_of_fmap. by exists iface. }
    split; [done |].
    unfold newGoInterface. cbn [GoInterface.Name]. unfold index. by rewrite Hlook.
  - intros Hpkg Hun. unfold CamelCase, stripUnstable. rewrite Hpre, Hsuf.
    unfold configuredPrefix, configuredSuffix. rewrite Hpkg, Hun. reflexivity.
  - intros Hun. unfold stripUnstable. rewrite Hsuf.
    unfold configuredSuffix. rewrite Hun. reflexivity.
  - intros Hlen. rewrite Hid. unfold derive_suffix_first, derive_spec. cbv zeta.
    by rewrite Trim_comm.
Qed.

(** ** Nullable arguments *)

Lemma range_map {A} (body : A → string) (l : list A) : range body l = concat (map body l).
Proof. induction l as [|x l IH]; [done |]. cbn [range foldr map concat]. by f_equal. Qed.

(** C7: an incoming argument of object type with a declared interface is
    decoded, when it may be null, by reading the proxy into a variable,
    testing it against nil and assigning the field of the payload, asserted
    to the resolved pointer type, only inside that test; when it may not be
    null, by assigning the proxy asserted to the resolved pointer type, with
    no test.  The decode path of each argument of an incoming entry stands in
    the dispatch case of the entry, in the order of the arguments. *)
Theorem nullable_decode (f : Flags) (g : Globals) (arg : Arg.t) :
  Arg.Type_ arg = "object" → Arg.Interface arg ≠ "" →
  (Arg.AllowNull arg = true →
     dispatchArg (buildArg f g arg) =
     nl +:+ tab +:+ tab +:+ tab +:+
     strings.ToLower (CamelCase g (Arg.Name arg)) +:+ " := event.Proxy(p.Context())" +:+ nl +:+
     tab +:+ tab +:+ tab +:+ "if " +:+ strings.ToLower (CamelCase g (Arg.Name arg)) +:+
     " != nil {" +:+ nl +:+
     tab +:+ tab +:+ tab +:+ tab +:+ "ev." +:+ CamelCase g (Arg.Name arg) +:+ " = " +:+
     strings.ToLower (CamelCase g (Arg.Name arg)) +:+ ".(*" +:+ resolved g arg +:+ ")" +:+ nl +:+
     tab +:+ tab +:+ tab +:+ "}") ∧
  (Arg.AllowNull arg = false →
     dispatchArg (buildArg f g arg) =
     nl +:+ tab +:+ tab +:+ tab +:+
     "ev." +:+ CamelCase g (Arg.Name arg) +:+ " = event.Proxy(p.Context()).(*" +:+
     resolved g arg +:+ ")") ∧
  (∀ i entry,
     caseBody (GoInterface.Name i) (buildEvent f g i entry) =
     nl +:+
     tab +:+ tab +:+ "if len(p." +:+ snakeCase (NameStr entry) +:+ "Handlers) > 0 {" +:+ nl +:+
     tab +:+ tab +:+ tab +:+ "ev := " +:+ GoInterface.Name i +:+
     CamelCase g (NameStr entry) +:+ "Event{}" +:+
     concat (map (λ a, dispatchArg (buildArg f g a)) (Argss entry)) +:+
     nl +:+ tab +:+ tab +:+ tab +:+ "p.mu.RLock()" +:+ nl +:+
     tab +:+ tab +:+ tab +:+ "for _, h := range p." +:+ snakeCase (NameStr entry) +:+
     "Handlers {" +:+ nl +:+
     tab +:+ tab +:+ tab +:+ tab +:+ "h.Handle" +:+ GoInterface.Name i +:+
     CamelCase g (NameStr entry) +:+ "(ev)" +:+ nl +:+
     tab +:+ tab +:+ tab +:+ "}" +:+ nl +:+
     tab +:+ tab +:+ tab +:+ "p.mu.RUnlock()" +:+ nl +:+
     tab +:+ tab +:+ "}").
Proof.
  intros Hobj Hi. split; [|split].
  - intros Hnull. unfold buildArg. fold (resolved g arg).
    rewrite Hobj, wlTypes_object, Hnull.
    rewrite !(decide_False (P := "object" = "new_id" ∧ _)) by wrong_tag.
    rewrite decide_False by (intros (_ & ? & _); done).
    rewrite decide_True by done.
    unfold dispatchArg. cbn [GoArg.BasicType GoArg.AllowNull negb andb GoArg.SnakeName
      GoArg.BufMethod GoArg.Name GoArg.Type_].
    rewrite !append_assoc. reflexivity.
  - intros Hnull. unfold buildArg. fold (resolved g arg).
    rewrite Hobj, wlTypes_object, Hnull.
    rewrite !(decide_False (P := "object" = "new_id" ∧ _)) by wrong_tag.
    rewrite decide_True by done.
    unfold dispatchArg. cbn [GoArg.BasicType GoArg.AllowNull negb andb GoArg.SnakeName
      GoArg.BufMethod GoArg.Name GoArg.Type_].
    rewrite !append_assoc. reflexivity.
  - intros i entry. unfold caseBody. rewrite buildEvent_Args, range_map, map_map.
    unfold buildEvent. cbn [GoEvent.PName GoEvent.Name GoEvent.EName].
    rewrite !append_assoc. reflexivity.
Qed.

(** ** Forward and backward references *)



(** ** Inherited names *)

(** After the loop over the inherited names, each of them holds its
    qualified identifier and every other key what it held before. *)
Lemma registerInherited_lookup g k :
  wlNames (registerInherited g) !! k =
  if decide (k ∈ inheritedNames) then Some ("wl." +:+ CamelCase g k) else wlNames g !! k.
Proof.
  unfold registerInherited. generalize inheritedNames as names. intros names. revert g.
  induction names as [|n names IH]; intros g.
  - cbn [fold_left]. rewrite decide_False by apply not_elem_of_nil. done.
  - cbn [fold_left]. rewrite IH.
    change (CamelCase (set_wlNames (<[n:="wl." +:+ CamelCase g n]> (wlNames g)) g) k)
      with (CamelCase g k).
    rewrite wlNames_set_wlNames.
    destruct (decide (k ∈ names)) as [Hin|Hin].
    + rewrite decide_True by (by right). done.
    + destruct (decide (k = n)) as [->|Hne].
      * rewrite decide_True by (by left). by rewrite lookup_insert_eq.
      * rewrite decide_False by (by intros [?|?]%elem_of_cons).
        by rewrite lookup_insert_ne.
Qed.

(** The table that [configure] leaves: the inherited names, qualified, for a
    document other than [wayland]; nothing for [wayland]. *)
Lemma configure_lookup f protocol k :
  wlNames (configure f protocol) !! k =
  if decide (Protocol.Name protocol ≠ "wayland")
  then (if decide (k ∈ inheritedNames)
        then Some ("wl." +:+ CamelCase initialGlobals k) else None)
  else None.
Proof.
  unfold configure. cbv zeta.
  destruct (decide (unstable f ≠ "")); destruct (decide (pkgName f ≠ "wl"));
    destruct (decide (Protocol.Name protocol ≠ "wayland"));
    autorewrite with globals; rewrite ?registerInherited_lookup;
    autorewrite with globals; reflexivity.
Qed.

(** Not C9 as stated: generated into the base package [wl], the document
    [xdg_shell] has [wl_surface] qualified; generated into the package [xdg],
    the document [wayland] has no qualified entry for it, and none at all. *)
Lemma qualification_ignores_package :
  (pkgName clientFlags = "wl" ∧ "wl_surface" ∈ inheritedNames ∧
   wlNames (setup clientFlags xdgProtocol) !! "wl_surface" = Some "wl.Surface") ∧
  (pkgName otherPackageFlags ≠ "wl" ∧
   wlNames (setup otherPackageFlags waylandProtocol) !! "wl_surface" = None).
Proof.
  split; [split; [done | split] | split].
  - unfold inheritedNames. set_solver.
  - by vm_compute.
  - discriminate.
  - by vm_compute.
Qed.

(** C9, amended: for every name of the allow-list that the document does not
    declare itself, the symbol table holds the identifier qualified with the
    namespace of the base package exactly when the document is not the
    [wayland] protocol, whatever the target package is; for the [wayland]
    document it holds nothing for the name. *)
Theorem inherited_qualification (f : Flags) (protocol : Protocol.t) (name : string) :
  name ∈ inheritedNames →
  name ∉ declaredKeys (setup f protocol) (Protocol.Interfaces protocol) →
  (Protocol.Name protocol ≠ "wayland" →
     wlNames (setup f protocol) !! name = Some ("wl." +:+ CamelCase initialGlobals name)) ∧
  (Protocol.Name protocol = "wayland" → wlNames (setup f protocol) !! name = None).
Proof.
  intros Hin Hnot. rewrite setup_lookup, decide_False by done.
  rewrite configure_lookup. split; intros Hname.
  - rewrite decide_True by done. by rewrite decide_True.
  - by rewrite decide_False by (intros H; by apply H).
Qed.

(** ** Declared names win *)

Lemma hasByte_app c a b : hasByte c (a +:+ b) = hasByte c a || hasByte c b.
Proof.
  induction a as [|x a IH]; [done |].
  rewrite append_cons. cbn [hasByte]. by rewrite IH, orb_assoc.
Qed.

Lemma hasByte_Replace c s old new :
  hasByte c s = false → hasByte c new = false →
  hasByte c (strings.Replace s old new) = false.
Proof.
  intros Hs Hnew. induction s as [|x s IH]; [done |].
  cbn [hasByte] in Hs. apply orb_false_iff in Hs as [Hx Hs].
  rewrite Replace_cons, hasByte_app, IH by done.
  destruct (decide (x = old)); [by rewrite Hnew |].
  cbn [hasByte]. by rewrite Hx.
Qed.






(** * More properties of the generator *)

(** ** The two slices of [ProcessRequests] *)

(** What an append does to each slice, to its length and to the sharing. *)
Lemma params_append_params x s : params (append_params x s) = params s ++ [x].
Proof. unfold append_params. by destruct (_ <? _). Qed.

Lemma sendRequestArgs_append_sendRequestArgs x s :
  sendRequestArgs (append_sendRequestArgs x s) = sendRequestArgs s ++ [x].
Proof. unfold append_sendRequestArgs. by destruct (_ <? _). Qed.

Lemma length_params_append_params x s :
  length (params (append_params x s)) = S (length (params s)).
Proof. rewrite params_append_params, length_app. simpl. lia. Qed.

Lemma length_sendRequestArgs_append_params x s :
  length (sendRequestArgs (append_params x s)) = length (sendRequestArgs s).
Proof.
  unfold append_params. destruct (_ <? _); [|done].
  simpl. destruct (shared s); [|done]. by rewrite length_insert.
Qed.

Lemma length_params_append_sendRequestArgs x s :
  length (params (append_sendRequestArgs x s)) = length (params s).
Proof.
  unfold append_sendRequestArgs. destruct (_ <? _); [|done].
  simpl. destruct (shared s); [|done]. by rewrite length_insert.
Qed.

Lemma length_sendRequestArgs_append_sendRequestArgs x s :
  length (sendRequestArgs (append_sendRequestArgs x s)) = S (length (sendRequestArgs s)).
Proof. rewrite sendRequestArgs_append_sendRequestArgs, length_app. simpl. lia. Qed.

#[global] Hint Rewrite length_params_append_params length_sendRequestArgs_append_params
  length_params_append_sendRequestArgs length_sendRequestArgs_append_sendRequestArgs
  : slices.

Lemma shared_append_params x s : shared (append_params x s) = true → shared s = true.
Proof. unfold append_params. by destruct (_ <? _). Qed.

Lemma shared_append_sendRequestArgs x s :
  shared (append_sendRequestArgs x s) = true → shared s = true.
Proof. unfold append_sendRequestArgs. by destruct (_ <? _). Qed.

Lemma params_append_sendRequestArgs x s :
  (shared s = true → length (params s) ≤ length (sendRequestArgs s)) →
  params (append_sendRequestArgs x s) = params s.
Proof.
  intros H. unfold append_sendRequestArgs. destruct (_ <? _); [|done].
  simpl. destruct (shared s); [|done].
  apply list_insert_ge. by apply H.
Qed.

Lemma sendRequestArgs_append_params x s :
  shared s = false → sendRequestArgs (append_params x s) = sendRequestArgs s.
Proof. intros H. unfold append_params. destruct (_ <? _); [|done]. simpl. by rewrite H. Qed.

Lemma shared_false_append_params x s :
  shared s = false → shared (append_params x s) = false.
Proof. intros H. unfold append_params. by destruct (_ <? _). Qed.

Lemma shared_false_append_sendRequestArgs x s :
  shared s = false → shared (append_sendRequestArgs x s) = false.
Proof. intros H. unfold append_sendRequestArgs. by destruct (_ <? _). Qed.

Ltac still_shared H :=
  repeat first [ apply shared_append_params in H
               | apply shared_append_sendRequestArgs in H ].

Ltac keeps_params Hinv :=
  rewrite params_append_sendRequestArgs;
  [| let Hs := fresh "Hs" in
     let Hl := fresh "Hl" in
     intros Hs; still_shared Hs; pose proof (Hinv Hs) as Hl;
     autorewrite with slices; lia ].

(** One round of the loop adds the declarations of its argument to [params]
    and keeps [sendRequestArgs] the longer slice while the array is shared. *)
Lemma requestArg_params g st arg :
  apart (sl st) →
  params (sl (requestArg g st arg)) = params (sl st) ++ declared g arg ∧
  apart (sl (requestArg g st arg)).
Proof.
  intros Hinv. unfold apart in Hinv.
  unfold requestArg, declared, resolved, paramName.
  generalize (if decide (Arg.Name arg = "interface") then "iface" else Arg.Name arg).
  intros name.
  destruct (decide (Arg.Type_ arg = "new_id")) as [Hn|Hn];
    [destruct (decide (Arg.Interface arg ≠ "")) as [Hi|Hi]
    |destruct (decide (Arg.Type_ arg = "object" ∧ Arg.Interface arg ≠ "")) as [Ho|Ho]];
    simpl sl.
  - unfold sendRequestArgs_of_params, apart.
    destruct (_ <? _); simpl; rewrite app_nil_r; (split; [done|]); [|done].
    rewrite length_app. simpl. lia.
  - split.
    + rewrite !params_append_params. do 3 keeps_params Hinv.
      by rewrite <- !app_assoc.
    + intros Hs. still_shared Hs. specialize (Hinv Hs).
      autorewrite with slices. lia.
  - split.
    + keeps_params Hinv. by rewrite params_append_params.
    + intros Hs. still_shared Hs. specialize (Hinv Hs).
      autorewrite with slices. lia.
  - split.
    + rewrite params_append_params. by keeps_params Hinv.
    + intros Hs. still_shared Hs. specialize (Hinv Hs).
      autorewrite with slices. lia.
Qed.

Lemma fold_requestArg_params g args : ∀ st,
  apart (sl st) →
  params (sl (fold_left (requestArg g) args st)) =
  params (sl st) ++ flat_map (declared g) args.
Proof.
  induction args as [|arg args IH]; intros st Hinv; simpl.
  - by rewrite app_nil_r.
  - destruct (requestArg_params g st arg Hinv) as [Hp Hinv'].
    rewrite (IH _ Hinv'), Hp. by rewrite <- app_assoc.
Qed.

Lemma Params_set_signature p r a q : GoRequest.Params (set_signature p r a q) = p.
Proof. done. Qed.

Lemma Returns_set_signature p r a q : GoRequest.Returns (set_signature p r a q) = r.
Proof. done. Qed.

Lemma Args_set_signature p r a q : GoRequest.Args (set_signature p r a q) = a.
Proof. done. Qed.

(** X1: the parameter list of the method written for a request is, for every
    request and whatever the two slices of the loop share, the declarations
    of its arguments in the order of the arguments, joined by commas: an
    append to [sendRequestArgs] never changes a cell that [params] shows. *)
Theorem params_in_argument_order g i order wlReq :
  GoRequest.Params (buildRequest g i order wlReq) =
  strings.Join (flat_map (declared g) (Argss wlReq)) ",".
Proof.
  unfold buildRequest. cbv zeta. rewrite Params_set_signature.
  by rewrite fold_requestArg_params.
Qed.

(** ** The two roles, argument by argument *)

(** The parameters that the outgoing binding declares for an argument,
    against the field that the incoming binding gives it. *)
Lemma declared_against_field f g arg :
  GoArg.Name (buildArg f g arg) = CamelCase g (Arg.Name arg) ∧
  (∀ t, wlTypes !! Arg.Type_ arg = Some t →
     declared g arg = [paramName arg +:+ " " +:+ t] ∧
     GoArg.Type_ (buildArg f g arg) = t) ∧
  (Arg.Type_ arg = "object" → Arg.Interface arg ≠ "" →
     declared g arg = [paramName arg +:+ " *" +:+ resolved g arg] ∧
     GoArg.Type_ (buildArg f g arg) = "*" +:+ resolved g arg) ∧
  (newIdOf arg →
     declared g arg = [] ∧
     GoArg.Type_ (buildArg f g arg) = "*" +:+ resolved g arg) ∧
  (Arg.Type_ arg = "new_id" → Arg.Interface arg = "" →
     declared g arg =
       ["iface string"; "version uint32"; paramName arg +:+ " " +:+ wlPrefix g +:+ "Proxy"] ∧
     GoArg.Type_ (buildArg f g arg) = wlPrefix g +:+ "Proxy") ∧
  (wlTypes !! Arg.Type_ arg = None → Arg.Type_ arg ≠ "new_id" →
   ¬ (Arg.Type_ arg = "object" ∧ Arg.Interface arg ≠ "") →
     declared g arg = [paramName arg +:+ " "] ∧
     GoArg.Type_ (buildArg f g arg) = wlPrefix g +:+ "Proxy").
Proof.
  split; [unfold buildArg; by repeat case_match |].
  split; [|split; [|split; [|split]]].
  - intros t Ht. unfold declared, buildArg, index. rewrite Ht.
    rewrite !decide_False; [done | |].
    + intros [Hobj _]. rewrite Hobj in Ht. discriminate Ht.
    + intros Hnew. rewrite Hnew in Ht. discriminate Ht.
  - intros Hobj Hi. unfold declared, buildArg. fold (resolved g arg).
    rewrite Hobj, wlTypes_object.
    rewrite (decide_False (P := "object" = "new_id")) by discriminate.
    rewrite (decide_True (P := "object" = "object" ∧ _)) by done.
    split; [done |].
    rewrite !(decide_False (P := "object" = "new_id" ∧ _)) by wrong_tag.
    destruct (Arg.AllowNull arg).
    + rewrite decide_False by (intros (_ & ? & _); done). by rewrite decide_True.
    + by rewrite decide_True.
  - intros Hnew. rewrite buildArg_newId by done. split; [|done].
    destruct Hnew as [Htag Hi]. unfold declared. by rewrite !decide_True.
  - intros Htag Hi. unfold declared, buildArg. fold (resolved g arg).
    rewrite Htag, wlTypes_new_id, Hi.
    rewrite (decide_True (P := "new_id" = "new_id")) by done.
    rewrite (decide_False (P := "" ≠ "")) by (intros H; by apply H).
    split; [done |].
    rewrite !decide_False; [done | | | |]; intros H; decompose [and] H; done.
  - intros Hnone Htag Hobj. unfold declared, buildArg, index. rewrite Hnone.
    rewrite (decide_False (P := Arg.Type_ arg = "new_id")) by done.
    rewrite (decide_False (P := Arg.Type_ arg = "object" ∧ _)) by done.
    split; [done |].
    rewrite !decide_False; [done | | | |]; intros H; decompose [and] H;
      first [done | by apply Hobj].
Qed.

(** Not C2 as stated: the request [bind] has an unsigned argument and a
    new-object-id argument that names no interface.  Compiled for the
    client, its call declares four parameters; compiled for the server, its
    payload has two fields.  The two sides do not have the same arguments,
    and what differs is not which side owns the new object. *)
Lemma roles_differ_in_parameters :
  GoRequest.Params <$>
    GoInterface.Requests
      (snd (processInterface clientFlags "client"
              (setup clientFlags (Protocol.mk "demo" "" [registryLike])) registryLike))
  = ["name uint32,iface string,version uint32,id Proxy"] ∧
  (λ e, (λ a, (GoArg.Name a, GoArg.Type_ a)) <$> GoEvent.Args e) <$>
    GoInterface.Events
      (snd (processInterface serverFlags "server"
              (setup serverFlags (Protocol.mk "demo" "" [registryLike])) registryLike))
  = [[("Name", "uint32"); ("Id", "Proxy")]].
Proof. split; by vm_compute. Qed.

(** C2, amended: compiled for the client and for the server, an interface
    gets its two binding lists from swapped lists of the schema: the
    client's calls and the server's dispatch cases come from the requests,
    the client's dispatch cases and the server's calls from the events.  A
    list gives the same opcodes and names whichever side it lands on; the
    call of an entry declares the parameters of the entry's arguments, in
    their order, and its payload has one field for each argument, in their
    order.  Parameter and field have the same type for an argument of a
    basic type and for an object with an interface.  They differ for the
    others: a new-object-id with an interface is no parameter of the call,
    which takes the identifier from its caller, constructs the proxy and
    returns it, and is a field of the pointer type; a new-object-id without
    an interface gives three parameters against one field of the generic
    proxy type; any other argument gives a parameter with no type against a
    field of the generic proxy type.  The two roles bind an incoming
    argument alike but for the decode of a new-object-id with an interface:
    the client looks the proxy up, the server instantiates the object from
    the identifier read off the wire.  The symbol table that the bindings
    are built against does not depend on the role. *)
Theorem role_symmetry (fc fs : Flags) (g : Globals) (iface : Interface.t) :
  side fc = "client" → side fs = "server" →
  let icli := snd (processInterface fc (side fc) g iface) in
  let isrv := snd (processInterface fs (side fs) g iface) in
  let i0 := newGoInterface g iface in
  (GoInterface.Requests icli = requestBindings g i0 (rs iface) ∧
   GoInterface.Events isrv = eventBindings fs g i0 (rs iface) ∧
   GoInterface.Requests isrv = requestBindings g i0 (es iface) ∧
   GoInterface.Events icli = eventBindings fc g i0 (es iface)) ∧
  (∀ (L : list RoE) n entry, L !! n = Some entry →
     ∃ r e_c e_s,
       requestBindings g i0 L !! n = Some r ∧
       eventBindings fc g i0 L !! n = Some e_c ∧
       eventBindings fs g i0 L !! n = Some e_s ∧
       GoRequest.Order r = n ∧
       GoRequest.Name r = CamelCase g (NameStr entry) ∧
       GoEvent.Name e_c = CamelCase g (NameStr entry) ∧
       GoEvent.Name e_s = CamelCase g (NameStr entry) ∧
       GoRequest.Params r = strings.Join (flat_map (declared g) (Argss entry)) "," ∧
       GoEvent.Args e_c = map (buildArg fc g) (Argss entry) ∧
       GoEvent.Args e_s = map (buildArg fs g) (Argss entry)) ∧
  (∀ arg f,
     GoArg.Name (buildArg f g arg) = CamelCase g (Arg.Name arg) ∧
     (∀ t, wlTypes !! Arg.Type_ arg = Some t →
        declared g arg = [paramName arg +:+ " " +:+ t] ∧
        GoArg.Type_ (buildArg f g arg) = t) ∧
     (Arg.Type_ arg = "object" → Arg.Interface arg ≠ "" →
        declared g arg = [paramName arg +:+ " *" +:+ resolved g arg] ∧
        GoArg.Type_ (buildArg f g arg) = "*" +:+ resolved g arg) ∧
     (newIdOf arg →
        declared g arg = [] ∧
        GoArg.Type_ (buildArg f g arg) = "*" +:+ resolved g arg) ∧
     (Arg.Type_ arg = "new_id" → Arg.Interface arg = "" →
        declared g arg =
          ["iface string"; "version uint32";
           paramName arg +:+ " " +:+ wlPrefix g +:+ "Proxy"] ∧
        GoArg.Type_ (buildArg f g arg) = wlPrefix g +:+ "Proxy") ∧
     (wlTypes !! Arg.Type_ arg = None → Arg.Type_ arg ≠ "new_id" →
      ¬ (Arg.Type_ arg = "object" ∧ Arg.Interface arg ≠ "") →
        declared g arg = [paramName arg +:+ " "] ∧
        GoArg.Type_ (buildArg f g arg) = wlPrefix g +:+ "Proxy")) ∧
  (∀ arg,
     sameButDecode (buildArg fc g arg) (buildArg fs g arg) ∧
     (¬ newIdOf arg → buildArg fc g arg = buildArg fs g arg) ∧
     (newIdOf arg →
        GoArg.BufMethod (buildArg fc g arg) = proxyDecode g arg ∧
        GoArg.BufMethod (buildArg fs g arg) = newObjectDecode g arg)) ∧
  (∀ order wlReq, (∃ arg, arg ∈ Argss wlReq ∧ newIdOf arg) →
     ∃ arg, arg ∈ Argss wlReq ∧ newIdOf arg ∧
       requestTemplate (buildRequest g i0 order wlReq) =
       newIdMethod g arg (buildRequest g i0 order wlReq)) ∧
  (∀ protocol, pkgName fc = pkgName fs → unstable fc = unstable fs →
     setup fc protocol = setup fs protocol).
Proof.
  intros Hc Hs icli isrv i0. subst icli isrv i0. rewrite !snd_processInterface.
  split; [|split; [|split; [|split; [|split]]]].
  6: { intros protocol Hpkg Hun. unfold setup, configure. by rewrite Hpkg, Hun. }
  - unfold interfaceBinding, outbound, inbound. rewrite Hc, Hs.
    cbn [GoInterface.Requests GoInterface.Events].
    rewrite decide_True by done. rewrite decide_False by done. done.
  - intros L n entry Hn. unfold requestBindings, eventBindings.
    do 3 eexists.
    rewrite list_lookup_imap, !list_lookup_fmap, Hn. cbn [fmap option_fmap option_map].
    split; [done |]. split; [done |]. split; [done |].
    split; [apply buildRequest_Order |]. split; [apply buildRequest_Name |].
    split; [done |]. split; [done |].
    split; [|split; apply buildEvent_Args].
    unfold buildRequest. cbv zeta. rewrite Params_set_signature.
    by rewrite fold_requestArg_params.
  - intros arg f. apply declared_against_field.
  - intros arg. destruct (decide (newIdOf arg)) as [Hnew|Hnew].
    + rewrite !buildArg_newId by done. rewrite Hc, Hs.
      rewrite decide_False by done. rewrite decide_True by done.
      unfold sameButDecode. cbn. done.
    + rewrite (buildArg_other fc fs) by done.
      unfold sameButDecode. done.
  - intros order wlReq (arg0 & Hin0 & Hnew0).
    set (i0 := newGoInterface g iface).
    set (req0 := GoRequest.mk (CamelCase g (NameStr wlReq))
                   (stripUnstable g (GoInterface.Name i0)) "" "" "" false "" "" order
                   (Description.Summary (Desc wlReq))
                   (reflow (Description.Text (Desc wlReq)))).
    destruct (fold_requestArg_newId g (Argss wlReq)
                (mkRequestLocals [] (mkSlices [] 0 [] 0 false) req0))
      as [(arg & Hin & Hnew & Hh & Hn & Hp)|(Hnone & _)].
    2: { by destruct (Hnone arg0 Hin0). }
    exists arg. split; [done |]. split; [done |].
    unfold requestTemplate, newIdMethod.
    assert (GoRequest.HasNewId (buildRequest g i0 order wlReq) = true) as -> by exact Hh.
    assert (GoRequest.Prefix (buildRequest g i0 order wlReq) =
            qualifier (strings.Split (resolved g arg) dot)) as -> by exact Hp.
    assert (GoRequest.NewIdInterface (buildRequest g i0 order wlReq) =
            lastComponent (strings.Split (resolved g arg) dot)) as -> by exact Hn.
    destruct (0 <? String.length _); rewrite ?append_assoc; reflexivity.
Qed.

(** The arguments of the send call, while no array is shared. *)
Lemma requestArg_passed g st arg :
  shared (sl st) = false → ¬ newIdOf arg →
  sendRequestArgs (sl (requestArg g st arg)) = sendRequestArgs (sl st) ++ passed g arg ∧
  shared (sl (requestArg g st arg)) = false.
Proof.
  intros Hs Hnew. unfold requestArg, passed, paramName.
  generalize (if decide (Arg.Name arg = "interface") then "iface" else Arg.Name arg).
  intros name.
  destruct (decide (Arg.Type_ arg = "new_id")) as [Hn|Hn];
    [destruct (decide (Arg.Interface arg ≠ "")) as [Hi|Hi]
    |destruct (decide (Arg.Type_ arg = "object" ∧ Arg.Interface arg ≠ "")) as [Ho|Ho]];
    simpl sl.
  - by destruct Hnew.
  - split.
    + rewrite !sendRequestArgs_append_params, !sendRequestArgs_append_sendRequestArgs,
        <- ?app_assoc;
        repeat first [done | apply shared_false_append_params
                     | apply shared_false_append_sendRequestArgs].
    + repeat first [done | apply shared_false_append_params
                   | apply shared_false_append_sendRequestArgs].
  - split.
    + by rewrite sendRequestArgs_append_sendRequestArgs, sendRequestArgs_append_params.
    + repeat first [done | apply shared_false_append_params
                   | apply shared_false_append_sendRequestArgs].
  - split.
    + rewrite sendRequestArgs_append_params, sendRequestArgs_append_sendRequestArgs;
        [done | by apply shared_false_append_sendRequestArgs].
    + repeat first [done | apply shared_false_append_params
                   | apply shared_false_append_sendRequestArgs].
Qed.

Lemma fold_requestArg_passed g args : ∀ st,
  shared (sl st) = false → (∀ arg, arg ∈ args → ¬ newIdOf arg) →
  sendRequestArgs (sl (fold_left (requestArg g) args st)) =
  sendRequestArgs (sl st) ++ flat_map (passed g) args.
Proof.
  induction args as [|arg args IH]; intros st Hs Hall; simpl.
  - by rewrite app_nil_r.
  - destruct (requestArg_passed g st arg Hs) as [Hp Hs'].
    { apply Hall. left. }
    rewrite IH, Hp; [by rewrite <- app_assoc | done |].
    intros a Ha. apply Hall. by right.
Qed.

Lemma requestArg_first g r arg :
  let st := requestArg g (mkRequestLocals [] (mkSlices [] 0 [] 0 false) r) arg in
  sendRequestArgs (sl st) = passed g arg ∧ shared (sl st) = false.
Proof.
  unfold requestArg, passed, paramName.
  generalize (if decide (Arg.Name arg = "interface") then "iface" else Arg.Name arg).
  intros name.
  destruct (decide (Arg.Type_ arg = "new_id")) as [Hn|Hn];
    [destruct (decide (Arg.Interface arg ≠ "")) as [Hi|Hi]
    |destruct (decide (Arg.Type_ arg = "object" ∧ Arg.Interface arg ≠ "")) as [Ho|Ho]];
    done.
Qed.

Lemma passed_cons g arg : ∃ x xs, passed g arg = x :: xs.
Proof. unfold passed. repeat case_decide; eauto. Qed.

Lemma buildRequest_Args g i order wlReq :
  (∀ arg, arg ∈ tail (Argss wlReq) → ¬ newIdOf arg) →
  GoRequest.Args (buildRequest g i order wlReq) =
  if decide (Argss wlReq = []) then ""
  else "," +:+ strings.Join (flat_map (passed g) (Argss wlReq)) ",".
Proof.
  intros Hrest. unfold buildRequest. cbv zeta. rewrite Args_set_signature.
  destruct (Argss wlReq) as [|arg rest]; [done|].
  rewrite decide_False by done. simpl fold_left. simpl in Hrest.
  match goal with |- context [requestArg g ?st0 arg] =>
    destruct (requestArg_first g (req st0) arg) as [Hf Hs] end.
  simpl in Hf, Hs.
  rewrite fold_requestArg_passed, Hf by done.
  simpl flat_map. destruct (passed_cons g arg) as (x & xs & ->). done.
Qed.

(** A comma before every piece. *)
Lemma fold_left_append {A} (h : A → string) (l : list A) : ∀ acc,
  fold_left (λ ret x, ret +:+ h x) l acc = acc +:+ concat (map h l).
Proof.
  induction l as [|x l IH]; intros acc; simpl.
  - by rewrite append_nil_r.
  - rewrite IH. unfold concat. simpl. by rewrite append_assoc.
Qed.

Lemma commas parts :
  concat (map (λ part, "," +:+ part) parts) =
  if decide (parts = []) then "" else "," +:+ strings.Join parts ",".
Proof.
  induction parts as [|p parts IH]; [done|].
  rewrite decide_False by done. unfold concat in *. simpl foldr. rewrite IH.
  destruct parts as [|q parts]; [by rewrite decide_True, append_nil_r|].
  rewrite decide_False by done.
  change (strings.Join (p :: q :: parts) ",")
    with (p +:+ "," +:+ strings.Join (q :: parts) ",").
  by rewrite !append_assoc.
Qed.

(** X2: when no argument after the first creates an object, the send call of
    the method passes the receiver, the index of the request and then, in
    the order of the arguments, [Proxy(ret)] for a new-object-id argument
    with an interface, [iface], [version] and the name for one without, and
    the name for any other argument. *)
Theorem arguments_marshalled_in_order g i order wlReq :
  (∀ arg, arg ∈ tail (Argss wlReq) → ¬ newIdOf arg) →
  sendRequestCall (buildRequest g i order wlReq) =
  "p.Context().SendRequest(p," +:+ itoa order +:+
  concat (map (λ argument, "," +:+ argument) (flat_map (passed g) (Argss wlReq))) +:+ ")".
Proof.
  intros Hrest. unfold sendRequestCall.
  rewrite buildRequest_Order, buildRequest_Args, commas by done.
  destruct (Argss wlReq) as [|arg rest]; [done|].
  rewrite (decide_False (P := arg :: rest = [])) by done.
  destruct (passed_cons g arg) as (x & xs & Hx).
  simpl flat_map. rewrite Hx. by rewrite decide_False.
Qed.

(** ** What a request returns *)

(** Splitting at a byte and joining with it. *)
Lemma Split_nonempty s sep : strings.Split s sep ≠ [].
Proof. destruct s as [|c s]; simpl; [done|]. case_decide; [done|]. by destruct (strings.Split s sep). Qed.

Lemma Join_Split sep : ∀ s, strings.Join (strings.Split s sep) (String sep "") = s.
Proof.
  induction s as [|c s IH]; [done|]. simpl strings.Split.
  pose proof (Split_nonempty s sep) as Hne.
  destruct (strings.Split s sep) as [|piece pieces]; [done|].
  case_decide as Hc.
  - subst c. change (strings.Join ("" :: piece :: pieces) (String sep ""))
      with ("" +:+ String sep "" +:+ strings.Join (piece :: pieces) (String sep "")).
    by rewrite IH.
  - destruct pieces as [|p ps].
    + simpl in *. by rewrite IH.
    + change (strings.Join (String c piece :: p :: ps) (String sep ""))
        with (String c piece +:+ String sep "" +:+ strings.Join (p :: ps) (String sep "")).
      change (strings.Join (piece :: p :: ps) (String sep ""))
        with (piece +:+ String sep "" +:+ strings.Join (p :: ps) (String sep "")) in IH.
      by rewrite append_cons, IH.
Qed.

Lemma Split_pieces sep : ∀ s piece, piece ∈ strings.Split s sep → hasByte sep piece = false.
Proof.
  induction s as [|c s IH]; intros piece; simpl strings.Split.
  - intros ->%list_elem_of_singleton. done.
  - pose proof (Split_nonempty s sep) as Hne.
    destruct (strings.Split s sep) as [|p ps]; [done|].
    case_decide as Hc.
    + intros [->|H]%elem_of_cons; [done|]. by apply IH.
    + intros [->|H]%elem_of_cons.
      * simpl. rewrite bool_decide_false by done. apply IH. left.
      * apply IH. by right.
Qed.

Lemma Join_snoc sep x : ∀ init,
  init ≠ [] → strings.Join (init ++ [x]) sep = strings.Join init sep +:+ sep +:+ x.
Proof.
  induction init as [|a init IH]; [done|]. intros _.
  destruct init as [|b init]; [done|].
  change (strings.Join ((a :: b :: init) ++ [x]) sep)
    with (a +:+ sep +:+ strings.Join ((b :: init) ++ [x]) sep).
  rewrite IH by done.
  change (strings.Join (a :: b :: init) sep)
    with (a +:+ sep +:+ strings.Join (b :: init) sep).
  by rewrite !append_assoc.
Qed.

Lemma qualifier_lastComponent comps :
  comps ≠ [] → qualifier comps +:+ lastComponent comps = strings.Join comps ".".
Proof.
  destruct comps as [|a comps _] using rev_ind; [done|]. intros _.
  unfold qualifier, lastComponent.
  rewrite last_snoc, length_app. simpl length.
  replace (length comps + 1 - 1) with (length comps) by lia.
  rewrite take_app_length.
  destruct comps as [|b comps]; [done|].
  replace (1 <? length (b :: comps) + 1) with true
    by (symmetry; apply Nat.ltb_lt; simpl; lia).
  simpl default. rewrite Join_snoc by done. by rewrite !append_assoc.
Qed.

Lemma qualifier_round_trip s :
  qualifier (strings.Split s dot) +:+ lastComponent (strings.Split s dot) = s.
Proof. rewrite qualifier_lastComponent by apply Split_nonempty. apply Join_Split. Qed.

Lemma lastComponent_no_dot s : hasByte dot (lastComponent (strings.Split s dot)) = false.
Proof.
  unfold lastComponent. destruct (last (strings.Split s dot)) as [x|] eqn:Hl; [|done].
  simpl. apply (Split_pieces dot s). by apply last_Some_elem_of.
Qed.

Lemma requestArg_returns g st arg :
  returns (requestArg g st arg) = returns st ++ results g arg.
Proof.
  unfold requestArg, results, resolved. repeat case_decide; simpl; by rewrite ?app_nil_r.
Qed.

Lemma fold_requestArg_returns g args : ∀ st,
  returns (fold_left (requestArg g) args st) = returns st ++ flat_map (results g) args.
Proof.
  induction args as [|arg args IH]; intros st; simpl; [by rewrite app_nil_r|].
  by rewrite IH, requestArg_returns, <- app_assoc.
Qed.

Lemma results_newId g arg : newIdOf arg → results g arg = ["*" +:+ resolved g arg].
Proof. intros [Hn Hi]. unfold results. by rewrite !decide_True. Qed.

Lemma results_other g arg : ¬ newIdOf arg → results g arg = [].
Proof. intros H. unfold results. repeat case_decide; try done. by destruct H. Qed.

Lemma flat_map_results_nil g args :
  flat_map (results g) args = [] ↔ ∀ arg, arg ∈ args → ¬ newIdOf arg.
Proof.
  induction args as [|a args IH]; simpl.
  - split; [|done]. intros _ arg Ha. by apply elem_of_nil in Ha.
  - split.
    + intros [Ha Hr]%app_eq_nil arg [->|Hin]%elem_of_cons.
      * intros Hn. by rewrite (results_newId g _ Hn) in Ha.
      * by apply IH.
    + intros H. rewrite results_other by (apply H; left).
      apply IH. intros arg Hin. apply H. by right.
Qed.

Lemma buildRequest_Returns g i order wlReq :
  GoRequest.Returns (buildRequest g i order wlReq) =
  match flat_map (results g) (Argss wlReq) with
  | [] => "error"
  | rets => "(" +:+ strings.Join rets "," +:+ " , error)"
  end.
Proof.
  unfold buildRequest. cbv zeta. rewrite Returns_set_signature, fold_requestArg_returns.
  simpl app. by destruct (flat_map _ _).
Qed.

Lemma buildRequest_newId g i order wlReq :
  let r := buildRequest g i order wlReq in
  (∃ arg, arg ∈ Argss wlReq ∧ newIdOf arg ∧ GoRequest.HasNewId r = true ∧
     GoRequest.NewIdInterface r = lastComponent (strings.Split (resolved g arg) dot) ∧
     GoRequest.Prefix r = qualifier (strings.Split (resolved g arg) dot)) ∨
  ((∀ arg, arg ∈ Argss wlReq → ¬ newIdOf arg) ∧ GoRequest.HasNewId r = false).
Proof.
  unfold buildRequest. cbv zeta. simpl.
  match goal with |- context [fold_left (requestArg g) _ ?st0] =>
    destruct (fold_requestArg_newId g (Argss wlReq) st0)
      as [(arg & Hin & Hnew & H1 & H2 & H3)|(Hall & H1 & _)] end.
  - left. exists arg. by split_and!.
  - right. split; [done|]. by rewrite H1.
Qed.

(** X3: the method of a request returns [error] alone exactly when the
    request is not marked as creating an object, and that is exactly when
    none of its arguments is a new-object-id with an interface. *)
Theorem error_alone_without_new_object g i order wlReq :
  (GoRequest.Returns (buildRequest g i order wlReq) = "error" ↔
   GoRequest.HasNewId (buildRequest g i order wlReq) = false) ∧
  (GoRequest.HasNewId (buildRequest g i order wlReq) = false ↔
   ∀ arg, arg ∈ Argss wlReq → ¬ newIdOf arg).
Proof.
  assert (GoRequest.HasNewId (buildRequest g i order wlReq) = false ↔
          ∀ arg, arg ∈ Argss wlReq → ¬ newIdOf arg) as Hhas.
  { destruct (buildRequest_newId g i order wlReq)
      as [(arg & Hin & Hnew & H1 & _)|(Hall & H1)].
    - rewrite H1. split; [done|]. intros Hall. by destruct (Hall arg Hin).
    - by rewrite H1. }
  split; [|done]. rewrite Hhas, <- (flat_map_results_nil g), buildRequest_Returns.
  destruct (flat_map _ _); [done|]. split; intros H; discriminate H.
Qed.

(** X4: for a request with exactly one argument that creates an object, the
    method returns a pointer to the type whose constructor its body calls:
    the qualifier and the unqualified name that the binding keeps put
    together are the identifier the symbol table gives, and the unqualified
    name holds no dot. *)
Theorem return_type_matches_constructor g i order wlReq before arg after :
  Argss wlReq = before ++ arg :: after →
  newIdOf arg →
  (∀ other, other ∈ before ++ after → ¬ newIdOf other) →
  let r := buildRequest g i order wlReq in
  GoRequest.Returns r =
    "(*" +:+ GoRequest.Prefix r +:+ GoRequest.NewIdInterface r +:+ " , error)" ∧
  GoRequest.Prefix r +:+ GoRequest.NewIdInterface r = resolved g arg ∧
  hasByte dot (GoRequest.NewIdInterface r) = false.
Proof.
  intros Hargs Hnew Hothers r.
  assert (GoRequest.Prefix r +:+ GoRequest.NewIdInterface r = resolved g arg ∧
          hasByte dot (GoRequest.NewIdInterface r) = false) as [Hres Hdot].
  { destruct (buildRequest_newId g i order wlReq)
      as [(arg' & Hin & Hnew' & _ & H2 & H3)|(Hall & _)].
    - fold r in H2, H3. rewrite H2, H3.
      assert (arg' = arg) as ->.
      { rewrite Hargs in Hin. apply elem_of_app in Hin as [Hin|Hin].
        - destruct (Hothers arg'); [|done]. apply elem_of_app. by left.
        - apply elem_of_cons in Hin as [->|Hin]; [done|].
          destruct (Hothers arg'); [|done]. apply elem_of_app. by right. }
      split; [apply qualifier_round_trip | apply lastComponent_no_dot].
    - destruct (Hall arg); [|done]. rewrite Hargs. apply elem_of_app. right. left. }
  split; [|done]. rewrite <- (append_assoc (GoRequest.Prefix r)), Hres.
  unfold r. rewrite buildRequest_Returns, Hargs.
  assert (flat_map (results g) (before ++ arg :: after) = ["*" +:+ resolved g arg]) as ->.
  { rewrite flat_map_app. simpl.
    assert (flat_map (results g) before = []) as ->.
    { apply flat_map_results_nil. intros a Ha. apply Hothers, elem_of_app. by left. }
    assert (flat_map (results g) after = []) as ->.
    { apply flat_map_results_nil. intros a Ha. apply Hothers, elem_of_app. by right. }
    by rewrite results_newId. }
  reflexivity.
Qed.

(** ** Comments *)

Lemma Split_app sep b : ∀ a,
  strings.Split (a +:+ String sep b) sep = strings.Split a sep ++ strings.Split b sep.
Proof.
  induction a as [|c a IH].
  - rewrite append_nil_l. simpl. by rewrite decide_True.
  - rewrite append_cons. simpl strings.Split. rewrite IH.
    pose proof (Split_nonempty a sep) as Hne.
    destruct (strings.Split a sep) as [|p ps]; [done|].
    by case_decide.
Qed.

Lemma Split_whole sep : ∀ s, hasByte sep s = false → strings.Split s sep = [s].
Proof.
  induction s as [|c s IH]; [done|]. simpl.
  intros [Hc Hs]%orb_false_elim. apply bool_decide_eq_false in Hc.
  rewrite decide_False by done. by rewrite IH.
Qed.

Lemma hasByte_rev_app c : ∀ s acc,
  hasByte c (String.rev_app s acc) = hasByte c s || hasByte c acc.
Proof.
  induction s as [|x s IH]; intros acc; [done|]. simpl. rewrite IH. simpl.
  destruct (bool_decide (x = c)), (hasByte c s); done.
Qed.

Lemma hasByte_rev c s : hasByte c (String.rev s) = hasByte c s.
Proof. unfold String.rev. rewrite hasByte_rev_app. simpl. by rewrite orb_false_r. Qed.

Lemma hasByte_trimLeft c : ∀ s, hasByte c s = false → hasByte c (strings.trimLeft s) = false.
Proof.
  induction s as [|x s IH]; [done|]. simpl.
  intros H. destruct (strings.isSpace x); [|done].
  apply IH. by apply orb_false_elim in H as [_ H].
Qed.

Lemma hasByte_TrimSpace c s : hasByte c s = false → hasByte c (strings.TrimSpace s) = false.
Proof.
  intros H. unfold strings.TrimSpace.
  rewrite hasByte_rev. apply hasByte_trimLeft. rewrite hasByte_rev.
  by apply hasByte_trimLeft.
Qed.

Lemma Split_lines (body : string → string) sep : ∀ lines,
  (∀ line, line ∈ lines → hasByte sep (body line) = false) →
  strings.Split (concat (map (λ line, body line +:+ String sep "") lines)) sep =
  map body lines ++ [""].
Proof.
  induction lines as [|line lines IH]; intros Hall; [done|].
  unfold concat. simpl foldr. fold (concat (map (λ line, body line +:+ String sep "") lines)).
  rewrite append_assoc, append_cons, append_nil_l, Split_app, IH.
  - rewrite Split_whole; [done|]. apply Hall. left.
  - intros l Hl. apply Hall. by right.
Qed.

(** X5: [reflow] turns every line of the text into one comment line, the
    line trimmed and put after [// ], and ends the last one with a newline:
    the result has as many lines as the text, and no line of it is outside a
    comment. *)
Theorem reflow_lines text :
  strings.Split (reflow text) (ascii_of_nat 10) =
  map (λ line, "// " +:+ strings.TrimSpace line) (strings.Split text (ascii_of_nat 10))
  ++ [""].
Proof.
  unfold reflow.
  rewrite (fold_left_append (λ line, "// " +:+ strings.TrimSpace line +:+ nl)), append_nil_l.
  rewrite <- (Split_lines (λ line, "// " +:+ strings.TrimSpace line) (ascii_of_nat 10)).
  - reflexivity.
  - intros line Hline. rewrite hasByte_app. apply orb_false_intro; [done|].
    apply hasByte_TrimSpace. by apply (Split_pieces _ text).
Qed.

(** ** The two spellings of a name *)

Lemma hasByte_Replace_away c new : ∀ s,
  hasByte c new = false → hasByte c (strings.Replace s c new) = false.
Proof.
  intros s Hnew. induction s as [|x s IH]; [done|].
  rewrite Replace_cons, hasByte_app, IH, orb_false_r.
  destruct (decide (x = c)) as [->|Hx]; [done|].
  simpl. by rewrite bool_decide_false.
Qed.

Lemma toTitle_not_underscore c : c ≠ underscore → strings.toTitle c ≠ underscore.
Proof.
  destruct c as [[] [] [] [] [] [] [] []]; intros Hc H; vm_compute in H;
    first [discriminate H | by apply Hc].
Qed.

Lemma hasByte_underscore_Title_from s : ∀ prev,
  hasByte underscore s = false → hasByte underscore (strings.Title_from prev s) = false.
Proof.
  induction s as [|x s IH]; intros prev Hs; [done |].
  cbn [hasByte] in Hs. apply orb_false_iff in Hs as [Hx Hs].
  apply bool_decide_eq_false in Hx.
  cbn [strings.Title_from hasByte]. rewrite IH by done.
  rewrite orb_false_r. apply bool_decide_eq_false.
  destruct (strings.isSeparator prev); [by apply toTitle_not_underscore | done].
Qed.

(** X6: an identifier that [CamelCase] derives holds no underscore and no
    space, whatever the name and the configured prefix. *)
Theorem CamelCase_no_underscore_no_space g name :
  hasByte underscore (CamelCase g name) = false ∧
  hasByte space (CamelCase g name) = false.
Proof.
  unfold CamelCase, strings.Title. cbv zeta. split.
  - apply hasByte_Replace; [|done].
    apply hasByte_underscore_Title_from. by apply hasByte_Replace_away.
  - by apply hasByte_Replace_away.
Qed.

(** Title-casing a text and then deleting its spaces title-cases each of its
    words. *)
Lemma Title_of_words t : ∀ prev,
  strings.Replace (strings.Title_from prev t) space "" =
  match strings.Split t space with
  | seg :: segs => strings.Title_from prev seg +:+ concat (map strings.Title segs)
  | [] => ""
  end.
Proof.
  induction t as [|c t IH]; intros prev; [done|].
  cbn [strings.Title_from strings.Split].
  destruct (decide (c = space)) as [->|Hc].
  - rewrite toTitle_space, Replace_cons, decide_True, append_nil_l, IH by done.
    change (strings.Title_from prev "") with "". rewrite append_nil_l.
    by destruct (strings.Split t space).
  - rewrite Replace_cons, decide_False.
    2: { destruct (strings.isSeparator prev); [by apply toTitle_not_space | done]. }
    rewrite append_cons, append_nil_l, IH.
    destruct (strings.Split t space) as [|seg segs]; [done|].
    cbn [strings.Title_from]. by rewrite append_cons.
Qed.

Lemma Join_empty : ∀ parts, strings.Join parts "" = concat parts.
Proof.
  induction parts as [|p parts IH]; [done|].
  destruct parts as [|q parts]; [by unfold concat; simpl; rewrite append_nil_r|].
  change (strings.Join (p :: q :: parts) "") with (p +:+ "" +:+ strings.Join (q :: parts) "").
  by rewrite IH, append_nil_l.
Qed.

Lemma imap_title parts :
  imap (λ (i : nat) (p : string), if decide (i = 0) then p else strings.Title p) parts =
  match parts with [] => [] | w :: ws => w :: map strings.Title ws end.
Proof.
  destruct parts as [|w ws]; [done|]. rewrite imap_cons. simpl. f_equal.
  apply list_eq. intros k. rewrite list_lookup_imap, list_lookup_fmap.
  by destruct (ws !! k).
Qed.

(** X7: when the configured prefix strips from the name what [wl_] strips,
    [snakeCase] and [CamelCase] agree on every word of the name but the
    first, which [snakeCase] keeps as it is and [CamelCase] title-cases. *)
Theorem snake_and_camel g name :
  strings.TrimPrefix name (trimPrefix g) = strings.TrimPrefix name "wl_" →
  ∃ w ws,
    words (strings.TrimPrefix name "wl_") = w :: ws ∧
    snakeCase name = w +:+ concat (map strings.Title ws) ∧
    CamelCase g name = strings.Title w +:+ concat (map strings.Title ws).
Proof.
  intros Hpre. unfold words.
  pose proof (Split_nonempty
    (strings.Replace (strings.TrimPrefix name "wl_") underscore " ") space) as Hne.
  destruct (strings.Split _ space) as [|w ws] eqn:Hw; [done|].
  exists w, ws. split; [done|]. split.
  - unfold snakeCase. cbv zeta.
    assert ((if strings.HasPrefix name "wl_" then strings.TrimPrefix name "wl_" else name)
            = strings.TrimPrefix name "wl_") as ->.
    { unfold strings.TrimPrefix. by destruct (strings.HasPrefix name "wl_"). }
    by rewrite Hw, imap_title, Join_empty.
  - unfold CamelCase, strings.Title. cbv zeta. by rewrite Hpre, Title_of_words, Hw.
Qed.

(** ** The symbol table as a whole *)

Lemma CamelCase_trimPrefix g g' name :
  trimPrefix g = trimPrefix g' → CamelCase g name = CamelCase g' name.
Proof. unfold CamelCase. by intros ->. Qed.

Lemma declaredKeys_setup f protocol ifaces :
  declaredKeys (setup f protocol) ifaces =
  map (λ iface, strings.TrimSuffix (Interface.Name iface) (configuredSuffix f)) ifaces.
Proof.
  unfold declaredKeys, stripUnstable.
  by destruct (setup_fields f protocol) as (_ & -> & _).
Qed.

(** X8: after registration the symbol table holds a key exactly when the key
    is the name of an interface of the document, suffix stripped, or the
    document is not [wayland] and the key is an inherited name; it holds
    nothing else. *)
Theorem symbol_table_domain f protocol k :
  wlNames (setup f protocol) !! k = None ↔
  (k ∉ declaredKeys (setup f protocol) (Protocol.Interfaces protocol)) ∧
  (Protocol.Name protocol = "wayland" ∨ k ∉ inheritedNames).
Proof.
  rewrite setup_lookup, configure_lookup.
  destruct (decide (k ∈ declaredKeys _ _)) as [Hk|Hk].
  - split; [done|]. by intros [? _].
  - destruct (decide (Protocol.Name protocol ≠ "wayland")) as [Hw|Hw].
    + destruct (decide (k ∈ inheritedNames)) as [Hi|Hi].
      * split; [done|]. intros [_ [?|?]]; done.
      * split; [|done]. intros _. split; [done|]. by right.
    + split; [|done]. intros _. split; [done|]. left.
      by destruct (decide (Protocol.Name protocol = "wayland")).
Qed.

Lemma take_append s : ∀ t, strings.take (String.length s) (s +:+ t) = s.
Proof.
  induction s as [|c s IH]; intros t; [by destruct t|].
  rewrite append_cons. simpl. by rewrite IH.
Qed.

Lemma drop_append s : ∀ t, strings.drop (String.length s) (s +:+ t) = t.
Proof. induction s as [|c s IH]; intros t; [done|]. rewrite append_cons. simpl. apply IH. Qed.

Lemma length_append s : ∀ t, String.length (s +:+ t) = String.length s + String.length t.
Proof. induction s as [|c s IH]; intros t; [done|]. rewrite append_cons. simpl. by rewrite IH. Qed.

Lemma TrimSuffix_app s suffix : strings.TrimSuffix (s +:+ suffix) suffix = s.
Proof.
  unfold strings.TrimSuffix, strings.HasSuffix.
  rewrite length_append.
  replace (String.length s + String.length suffix - String.length suffix)
    with (String.length s) by lia.
  rewrite drop_append, take_append, bool_decide_true by done.
  replace (String.length suffix <=? String.length s + String.length suffix) with true
    by (symmetry; apply Nat.leb_le; lia).
  done.
Qed.

Lemma TrimSuffix_empty s : strings.TrimSuffix s "" = s.
Proof. rewrite <- (append_nil_r s) at 1. apply TrimSuffix_app. Qed.

(** X9: with the unstable flag set, [stripUnstable] gives back the name that
    the underscore and the flag's value were appended to. *)
Theorem unstable_suffix_stripped f protocol name :
  unstable f ≠ "" →
  stripUnstable (setup f protocol) (name +:+ "_" +:+ unstable f) = name.
Proof.
  intros Hu. unfold stripUnstable.
  destruct (setup_fields f protocol) as (_ & -> & _).
  unfold configuredSuffix. rewrite decide_True by done.
  apply TrimSuffix_app.
Qed.

(** X10: an argument with one of the six basic tags is bound as a basic
    type with the Go type of [wlTypes]; [bufTypesMap] has a decode method
    for that type, so the decode expression is never left empty: it reads
    the next file descriptor of the context for [fd] and calls the method on
    the event for the others; and its dispatch line is a plain assignment,
    nullable or not. *)
Theorem basic_type_decoded f g arg :
  Arg.Type_ arg ∈ basicTags →
  let a := buildArg f g arg in
  GoArg.BasicType a = true ∧
  wlTypes !! Arg.Type_ arg = Some (GoArg.Type_ a) ∧
  (∃ method, bufTypesMap !! GoArg.Type_ a = Some method ∧
     GoArg.BufMethod a =
       if decide (Arg.Type_ arg = "fd") then "p.Context().NextFD()"
       else "event." +:+ method) ∧
  dispatchArg a =
    nl +:+ tab +:+ tab +:+ tab +:+ "ev." +:+ GoArg.Name a +:+ " = " +:+ GoArg.BufMethod a.
Proof.
  intros Htag a. subst a. unfold buildArg, basicTags in *. cbv zeta.
  repeat (apply elem_of_cons in Htag as [->|Htag];
          [split_and!; [done | done | eexists; split; reflexivity | done] |]).
  by apply elem_of_nil in Htag.
Qed.

(** ** The order of the interfaces *)

Lemma Globals_eq g g' :
  wlNames g = wlNames g' → wlPrefix g = wlPrefix g' → trimPrefix g = trimPrefix g' →
  ifTrimSuffix g = ifTrimSuffix g' → fileBuffer g = fileBuffer g' → g = g'.
Proof. destruct g, g'. simpl. by intros -> -> -> -> ->. Qed.

Lemma setup_order f protocol protocol' :
  Protocol.Name protocol = Protocol.Name protocol' →
  Protocol.Interfaces protocol ≡ₚ Protocol.Interfaces protocol' →
  wlNames (setup f protocol) = wlNames (setup f protocol').
Proof.
  intros Hname Hperm. apply map_eq. intros k.
  rewrite !setup_lookup, !declaredKeys_setup, !configure_lookup, Hname.
  rewrite (CamelCase_trimPrefix (setup f protocol) (setup f protocol')).
  2: { destruct (setup_fields f protocol) as (-> & _).
       by destruct (setup_fields f protocol') as (-> & _). }
  destruct (decide (k ∈ map _ (Protocol.Interfaces protocol))) as [Hk|Hk];
    destruct (decide (k ∈ map _ (Protocol.Interfaces protocol'))) as [Hk'|Hk'];
    try done.
  - destruct Hk'. by rewrite <- Hperm.
  - destruct Hk. by rewrite Hperm.
Qed.

Lemma setup_permutation f protocol protocol' :
  Protocol.Name protocol = Protocol.Name protocol' →
  Protocol.Interfaces protocol ≡ₚ Protocol.Interfaces protocol' →
  setup f protocol' = setup f protocol.
Proof.
  intros Hname Hperm.
  destruct (setup_fields f protocol) as (Ht & Hs & Hw).
  destruct (setup_fields f protocol') as (Ht' & Hs' & Hw').
  apply Globals_eq; [by apply setup_order | congruence | congruence | congruence |].
  by rewrite !fileBuffer_setup.
Qed.

(** X11: two documents with the same name whose interfaces are the same up
    to their order leave the same symbol table, so every argument resolves
    to the same identifier in both. *)
Theorem symbol_table_order f protocol protocol' :
  Protocol.Name protocol = Protocol.Name protocol' →
  Protocol.Interfaces protocol ≡ₚ Protocol.Interfaces protocol' →
  wlNames (setup f protocol') = wlNames (setup f protocol) ∧
  ∀ arg, resolved (setup f protocol') arg = resolved (setup f protocol) arg.
Proof. intros Hname Hperm. by rewrite (setup_permutation f protocol protocol'). Qed.

(** X12: reordering the interfaces of a document reorders the blocks of the
    output and changes nothing else: the header and the text written for
    each interface are the same, and the blocks follow the order of the
    document; each run writes where it can create the file and ends as
    [fmtFile] ends on the text it wrote. *)
Theorem blocks_follow_document_order f protocol protocol' now h :
  accepted f →
  Protocol.Name protocol = Protocol.Name protocol' →
  Protocol.Interfaces protocol ≡ₚ Protocol.Interfaces protocol' →
  let text :=
    headerText f protocol now +:+
    range (interfaceText f (side f) (setup f protocol)) (Protocol.Interfaces protocol) in
  let text' :=
    headerText f protocol now +:+
    range (interfaceText f (side f) (setup f protocol)) (Protocol.Interfaces protocol') in
  main f protocol now h =
    match Create h (output f) with
    | Some err => Fatal err
    | None => Written (output f) text (fmtFile h f text)
    end ∧
  main f protocol' now h =
    match Create h (output f) with
    | Some err => Fatal err
    | None => Written (output f) text' (fmtFile h f text')
    end.
Proof.
  intros Hf Hname Hperm text text'. subst text text'.
  rewrite !main_eq by done. unfold generated. split; [done|].
  rewrite (setup_permutation f protocol protocol') by done.
  unfold headerText. by rewrite Hname.
Qed.

(** ** Interfaces without incoming entries, and enumerations *)

(** X13: for an interface without incoming entries the generator writes no
    payload type, no handler function and no dispatch routine; the struct
    holds the embedded base proxy only, with no mutex, and the text goes on
    with the constructor, the outgoing methods and the enumerations. *)
Theorem no_incoming_entries f mode g iface :
  inbound mode iface = [] →
  interfaceText f mode g iface =
  nl +:+ "type " +:+ index (wlNames g) (stripUnstable g (Interface.Name iface)) +:+
  " struct {" +:+ nl +:+ tab +:+ wlPrefix g +:+ "BaseProxy" +:+ nl +:+ "}" +:+ nl +:+
  (if decide (side f = "client")
   then ifaceConstructorTemplate (interfaceBinding f mode g iface)
   else ifaceConstructorTemplateId (interfaceBinding f mode g iface)) +:+
  range requestTemplate (requestBindings g (newGoInterface g iface) (outbound mode iface)) +:+
  enumsText g (interfaceBinding f mode g iface).
Proof.
  intros Hin. unfold interfaceText. cbv zeta.
  unfold dispatchText, constructorText, ifaceTypeTemplate.
  assert (GoInterface.Events (interfaceBinding f mode g iface) = []) as ->.
  { unfold interfaceBinding. cbv zeta. cbn [GoInterface.Events]. by rewrite Hin. }
  cbn [range foldr length Nat.ltb Nat.leb].
  rewrite !append_nil_l.
  unfold interfaceBinding at 1 2 3. cbv zeta.
  cbn [GoInterface.Name GoInterface.WL GoInterface.Requests newGoInterface].
  by rewrite !append_assoc.
Qed.

(** X14: [ProcessEnums] writes one constant block per enumeration of the
    interface, in the order of the document, with one constant per entry,
    named by the interface, the enumeration and the entry and given the
    entry's value as the document has it; it changes neither the binding of
    the interface nor any variable but the buffer. *)
Theorem enum_constants g i :
  ProcessEnums (g, i) =
  (Fprintf
     (concat
        (map (λ wlEnum,
                nl +:+ "const (" +:+
                concat
                  (map (λ wlEntry,
                          nl +:+ tab +:+ GoInterface.Name i +:+
                          CamelCase g (Enum.Name wlEnum) +:+
                          CamelCase g (Entry.Name wlEntry) +:+ " = " +:+
                          Entry.Value wlEntry)
                       (Enum.Entries wlEnum)) +:+
                nl +:+ ")" +:+ nl)
             (Interface.Enums (GoInterface.WlInterface i)))) g,
   i).
Proof.
  rewrite ProcessEnums_eq. f_equal. f_equal. unfold enumsText.
  rewrite range_map. f_equal. apply map_ext. intros wlEnum.
  unfold ifaceEnums, buildEnum. cbn [GoEnum.Entries GoEnum.IfaceName GoEnum.Name].
  rewrite fold_left_snoc_map, app_nil_l, range_map, map_map. done.
Qed.

(** ** The first generator *)

Lemma Index_absent c : ∀ s, strings.Index s c = (-1)%Z ↔ countByte c s = 0.
Proof.
  induction s as [|x s IH]; [done|]. simpl.
  destruct (decide (x = c)) as [->|Hx]; [done|].
  assert (∀ t, (-1 ≤ strings.Index t c)%Z) as Hge.
  { induction t as [|y t IHt]; simpl; [lia|]. repeat case_decide; lia. }
  case_decide as Hi.
  - split; [|done]. intros _. by apply IH.
  - split; [intros H; specialize (Hge s); lia|]. intros H. simpl in H.
    by apply IH in H.
Qed.

Lemma length_Split c : ∀ s, length (strings.Split s c) = S (countByte c s).
Proof.
  induction s as [|x s IH]; [done|]. simpl.
  pose proof (Split_nonempty s c) as Hne.
  destruct (decide (x = c)); simpl; [by rewrite IH|].
  destruct (strings.Split s c); [done|]. by rewrite <- IH.
Qed.

(** X15: [enumArgName] of the first generator stops the program exactly when
    the enumeration name holds two dots or more. *)
Theorem enumArgName_fatal_iff ifaceName enumName :
  (∃ message, scanner.enumArgName ifaceName enumName = scanner.Fatal message) ↔
  2 ≤ countByte dot enumName.
Proof.
  unfold scanner.enumArgName.
  pose proof (Index_absent dot enumName) as Hidx.
  pose proof (length_Split dot enumName) as Hlen.
  case_decide as Hi.
  - apply Hidx in Hi. rewrite Hi. split; [by intros [? ?] | lia].
  - assert (countByte dot enumName ≠ 0) as Hc by (intros H; by apply Hidx in H).
    destruct (strings.Split enumName dot) as [|a [|b [|c rest]]]; simpl in Hlen.
    + lia.
    + lia.
    + split; [by intros [? ?] | lia].
    + split; [lia | eauto].
Qed.

Lemma countByte_hasByte c : ∀ s, hasByte c s = false ↔ countByte c s = 0.
Proof.
  induction s as [|x s IH]; [done|]. simpl.
  destruct (decide (x = c)) as [->|Hx].
  - by rewrite bool_decide_true.
  - by rewrite bool_decide_false.
Qed.

Lemma countByte_app c t : ∀ s, countByte c (s +:+ t) = countByte c s + countByte c t.
Proof.
  induction s as [|x s IH]; [done|]. rewrite append_cons. simpl. rewrite IH. lia.
Qed.

(** X16: in the first generator an enumeration referred to as
    [interface.enum] gets the type name that the reference [enum] gets
    inside the interface itself, whose Go name is [CamelCase] of its name. *)
Theorem enumArgName_qualified ifaceName iface enum :
  hasByte dot iface = false → hasByte dot enum = false →
  scanner.enumArgName ifaceName (iface +:+ "." +:+ enum) =
  scanner.enumArgName (scanner.CamelCase iface) enum.
Proof.
  intros Hi He. unfold scanner.enumArgName.
  rewrite (decide_True (P := strings.Index enum dot = (-1)%Z))
    by (by apply Index_absent, countByte_hasByte).
  rewrite decide_False.
  2: { intros H. apply Index_absent in H. rewrite countByte_app in H.
       simpl in H. lia. }
  change (iface +:+ "." +:+ enum) with (iface +:+ String dot enum).
  by rewrite Split_app, !Split_whole.
Qed.

(** X17: with the prefix as it is declared, [wl_], [CamelCase] derives the
    identifier that the first generator derives. *)
Theorem CamelCase_as_first_generator name :
  CamelCase initialGlobals name = scanner.CamelCase name.
Proof.
  unfold CamelCase, scanner.CamelCase. cbv zeta.
  change (trimPrefix initialGlobals) with "wl_".
  assert ((if strings.HasPrefix name "wl_" then strings.TrimPrefix name "wl_" else name)
          = strings.TrimPrefix name "wl_") as ->; [|done].
  unfold strings.TrimPrefix. by destruct (strings.HasPrefix name "wl_").
Qed.

Lemma requestArgs_arg_declared g ifaceName args arg :
  wlPrefix g = "" → ifTrimSuffix g = "" →
  Arg.Name arg ≠ "interface" → ¬ (Arg.Type_ arg = "uint" ∧ Arg.Enum arg ≠ "") →
  scanner.requestArgs_arg (wlNames g) ifaceName args arg =
  scanner.Return (args ++ declared g arg).
Proof.
  intros Hw Hs Hname Henum.
  unfold scanner.requestArgs_arg, declared, resolved, stripUnstable, paramName.
  rewrite Hw, Hs, TrimSuffix_empty, (decide_False (P := Arg.Name arg = "interface")) by done.
  destruct (decide (Arg.Type_ arg = "new_id")) as [Hn|Hn].
  - destruct (decide (Arg.Interface arg = "")) as [Hi|Hi].
    + by rewrite decide_False by (by intros ?).
    + rewrite decide_True by done. by rewrite app_nil_r.
  - destruct (decide (Arg.Type_ arg = "object" ∧ Arg.Interface arg ≠ "")); [done|].
    by rewrite decide_False.
Qed.

Lemma requestArgs_loop g ifaceName args : ∀ acc,
  wlPrefix g = "" → ifTrimSuffix g = "" →
  (∀ arg, arg ∈ args →
     Arg.Name arg ≠ "interface" ∧ ¬ (Arg.Type_ arg = "uint" ∧ Arg.Enum arg ≠ "")) →
  fold_left (λ acc arg, args ← acc; scanner.requestArgs_arg (wlNames g) ifaceName args arg)
    args (scanner.Return acc) =
  scanner.Return (acc ++ flat_map (declared g) args).
Proof.
  induction args as [|arg args IH]; intros acc Hw Hs Hall; simpl.
  - by rewrite app_nil_r.
  - destruct (Hall arg) as [Hname Henum]; [left|].
    change (scanner.Return acc ≫= _)
      with (scanner.requestArgs_arg (wlNames g) ifaceName acc arg).
    rewrite (requestArgs_arg_declared g) by done.
    rewrite IH; [by rewrite <- app_assoc | done | done |].
    intros a Ha. apply Hall. by right.
Qed.

(** X18: generating into the base package with no unstable suffix, the
    parameter list of a request equals the one that [requestArgs] of the
    first generator builds, for every request with no argument named
    [interface] and no enumeration-typed argument; [requestArgs] does not
    stop the program there. *)
Theorem parameters_as_first_generator g i order ifaceName request :
  wlPrefix g = "" → ifTrimSuffix g = "" →
  (∀ arg, arg ∈ Request.Args request →
     Arg.Name arg ≠ "interface" ∧ ¬ (Arg.Type_ arg = "uint" ∧ Arg.Enum arg ≠ "")) →
  scanner.requestArgs (wlNames g) ifaceName request =
  scanner.Return (GoRequest.Params (buildRequest g i order (RoE_Request request))).
Proof.
  intros Hw Hs Hall. unfold scanner.requestArgs.
  rewrite (requestArgs_loop g) by done.
  unfold buildRequest. cbv zeta. rewrite Params_set_signature.
  by rewrite fold_requestArg_params.
Qed.

Lemma requestBody_arg_params g names st arg :
  wlPrefix g = "" → Arg.Name arg ≠ "interface" →
  scanner.params (scanner.requestBody_arg names st arg) = scanner.params st ++ passed g arg.
Proof.
  intros Hw Hname. unfold scanner.requestBody_arg, passed, paramName.
  rewrite Hw, (decide_False (P := Arg.Name arg = "interface")) by done.
  by repeat case_decide.
Qed.

Lemma requestBody_loop_params g names args : ∀ st,
  wlPrefix g = "" → (∀ arg, arg ∈ args → Arg.Name arg ≠ "interface") →
  scanner.params (fold_left (scanner.requestBody_arg names) args st) =
  scanner.params st ++ flat_map (passed g) args.
Proof.
  induction args as [|arg args IH]; intros st Hw Hnames; simpl.
  - by rewrite app_nil_r.
  - rewrite IH, (requestBody_arg_params g); [by rewrite <- app_assoc | done | | done |].
    + apply Hnames. left.
    + intros a Ha. apply Hnames. by right.
Qed.

(** X19: generating into the base package, the arguments that the send call
    of a request passes are those in the call that [requestBody] of the
    first generator writes, for every request with no argument named
    [interface] whose arguments after the first create no object. *)
Theorem call_arguments_as_first_generator g i order names request reqCodeName :
  wlPrefix g = "" →
  (∀ arg, arg ∈ Request.Args request → Arg.Name arg ≠ "interface") →
  (∀ arg, arg ∈ tail (Request.Args request) → ¬ newIdOf arg) →
  scanner.requestBody names request reqCodeName =
  scanner.bodyBuffer (scanner.requestBody_loop names request) +:+ "return " +:+
  scanner.hasRetType (scanner.requestBody_loop names request) +:+
  " p.Connection().SendRequest(p," +:+ reqCodeName +:+
  GoRequest.Args (buildRequest g i order (RoE_Request request)) +:+ ")".
Proof.
  intros Hw Hnames Hrest. unfold scanner.requestBody. cbv zeta.
  rewrite (fold_left_append (λ param, "," +:+ param)), append_nil_l.
  unfold scanner.requestBody_loop at 3.
  rewrite (requestBody_loop_params g), app_nil_l, commas by done.
  rewrite buildRequest_Args by done.
  change (Argss (RoE_Request request)) with (Request.Args request).
  destruct (Request.Args request) as [|arg rest]; [done|].
  rewrite (decide_False (P := arg :: rest = [])) by done.
  destruct (passed_cons g arg) as (x & xs & Hx).
  simpl flat_map. rewrite Hx. by rewrite decide_False.
Qed.

(** * The theorems at concrete documents *)

Lemma unresolved_symbol_resolves_empty_witness :
  accepted clientFlags ∧
  (Arg.Type_ strayArg = "object" ∨ Arg.Type_ strayArg = "new_id") ∧
  Arg.Interface strayArg ≠ "" ∧
  wlNames (setup clientFlags strayProtocol)
    !! stripUnstable (setup clientFlags strayProtocol) (Arg.Interface strayArg) = None ∧
  resolved (setup clientFlags strayProtocol) strayArg = "" ∧
  GoArg.Type_ (buildArg clientFlags (setup clientFlags strayProtocol) strayArg) = "*".
Proof.
  assert (accepted clientFlags) as Hf.
  { split; [discriminate |]. split; [left; reflexivity | discriminate]. }
  assert (Arg.Interface strayArg ≠ "") as Hi by discriminate.
  assert (wlNames (setup clientFlags strayProtocol)
            !! stripUnstable (setup clientFlags strayProtocol) (Arg.Interface strayArg) = None)
    as Hnone by (vm_compute; reflexivity).
  split; [exact Hf |]. split; [left; reflexivity |]. split; [exact Hi |].
  split; [exact Hnone |].
  destruct (unresolved_symbol_resolves_empty clientFlags strayProtocol someTime noGo strayArg
              Hf (or_introl eq_refl) Hi Hnone) as (_ & Hres & Hty & _).
  split; [exact Hres | exact Hty].
Defined.

Lemma unknown_wire_type_passes_witness :
  accepted otherPackageFlags ∧
  wlTypes !! Arg.Type_ bogusArg = None ∧
  Arg.Type_ bogusArg ≠ "object" ∧ Arg.Type_ bogusArg ≠ "new_id" ∧
  wlPrefix (setup otherPackageFlags bogusProtocol) = "wl." ∧
  buildArg otherPackageFlags (setup otherPackageFlags bogusProtocol) bogusArg =
    GoArg.mk (CamelCase (setup otherPackageFlags bogusProtocol) (Arg.Name bogusArg))
      (wlPrefix (setup otherPackageFlags bogusProtocol) +:+ "Proxy")
      (snakeCase (Arg.Name bogusArg))
      ("event." +:+ wlPrefix (setup otherPackageFlags bogusProtocol) +:+ "Proxy(p.Context())")
      (Arg.AllowNull bogusArg) false "".
Proof.
  assert (accepted otherPackageFlags) as Hf.
  { split; [discriminate |]. split; [left; reflexivity | discriminate]. }
  assert (wlTypes !! Arg.Type_ bogusArg = None) as Hnone by (vm_compute; reflexivity).
  assert (Arg.Type_ bogusArg ≠ "object") as Hobj by discriminate.
  assert (Arg.Type_ bogusArg ≠ "new_id") as Hnew by discriminate.
  split; [exact Hf |]. split; [exact Hnone |]. split; [exact Hobj |]. split; [exact Hnew |].
  destruct (unknown_wire_type_passes otherPackageFlags bogusProtocol someTime noGo bogusArg
              Hf Hnone Hobj Hnew) as (_ & _ & Hw & Harg & _).
  split; [exact Hw | exact Harg].
Defined.

Lemma identifier_derivation_witness :
  hasByte space "demo_thing" = false ∧
  CamelCase (setup clientFlags demoProtocol)
    (stripUnstable (setup clientFlags demoProtocol) "demo_thing") =
  derive_suffix_first (configuredPrefix clientFlags) (configuredSuffix clientFlags)
    "demo_thing".
Proof.
  split; [reflexivity |].
  exact (proj1 (identifier_derivation clientFlags demoProtocol "demo_thing" eq_refl)).
Defined.

Lemma nullable_decode_witness :
  Arg.Type_ nullablePeer = "object" ∧ Arg.Interface nullablePeer ≠ "" ∧
  dispatchArg (buildArg clientFlags (setup clientFlags pairProtocol) nullablePeer) =
  nl +:+ tab +:+ tab +:+ tab +:+
  strings.ToLower (CamelCase (setup clientFlags pairProtocol) (Arg.Name nullablePeer)) +:+
  " := event.Proxy(p.Context())" +:+ nl +:+
  tab +:+ tab +:+ tab +:+ "if " +:+
  strings.ToLower (CamelCase (setup clientFlags pairProtocol) (Arg.Name nullablePeer)) +:+
  " != nil {" +:+ nl +:+
  tab +:+ tab +:+ tab +:+ tab +:+ "ev." +:+
  CamelCase (setup clientFlags pairProtocol) (Arg.Name nullablePeer) +:+ " = " +:+
  strings.ToLower (CamelCase (setup clientFlags pairProtocol) (Arg.Name nullablePeer)) +:+
  ".(*" +:+ resolved (setup clientFlags pairProtocol) nullablePeer +:+ ")" +:+ nl +:+
  tab +:+ tab +:+ tab +:+ "}".
Proof.
  assert (Arg.Interface nullablePeer ≠ "") as Hi by discriminate.
  split; [reflexivity |]. split; [exact Hi |].
  exact (proj1 (nullable_decode clientFlags (setup clientFlags pairProtocol) nullablePeer
                  eq_refl Hi) eq_refl).
Defined.


Lemma inherited_qualification_witness :
  "wl_surface" ∈ inheritedNames ∧
  ("wl_surface" ∉ declaredKeys (setup clientFlags xdgProtocol)
                    (Protocol.Interfaces xdgProtocol)) ∧
  wlNames (setup clientFlags xdgProtocol) !! "wl_surface" =
    Some ("wl." +:+ CamelCase initialGlobals "wl_surface").
Proof.
  assert ("wl_surface" ∈ inheritedNames) as Hin.
  { apply (bool_decide_unpack _). vm_compute. exact I. }
  assert ("wl_surface" ∉ declaredKeys (setup clientFlags xdgProtocol)
                           (Protocol.Interfaces xdgProtocol)) as Hnot.
  { apply (bool_decide_unpack _). vm_compute. exact I. }
  assert (Protocol.Name xdgProtocol ≠ "wayland") as Hname by discriminate.
  split; [exact Hin |]. split; [exact Hnot |].
  exact (proj1 (inherited_qualification clientFlags xdgProtocol "wl_surface" Hin Hnot) Hname).
Defined.


Lemma arguments_marshalled_in_order_witness :
  (∀ arg, arg ∈ tail (Argss (RoE_Request createChild)) → ¬ newIdOf arg) ∧
  sendRequestCall
    (buildRequest (setup clientFlags pairProtocol)
       (newGoInterface (setup clientFlags pairProtocol) demoA) 0 (RoE_Request createChild)) =
  "p.Context().SendRequest(p,0,Proxy(ret),depth)".
Proof.
  assert (∀ arg, arg ∈ tail (Argss (RoE_Request createChild)) → ¬ newIdOf arg) as Hrest.
  { intros arg Harg [Htag _]. apply list_elem_of_singleton in Harg. subst arg.
    discriminate Htag. }
  split; [exact Hrest |].
  exact (arguments_marshalled_in_order (setup clientFlags pairProtocol)
           (newGoInterface (setup clientFlags pairProtocol) demoA) 0
           (RoE_Request createChild) Hrest).
Defined.

Lemma return_type_matches_constructor_witness :
  newIdOf (Arg.mk "id" "new_id" "demo_b" "" false "") ∧
  GoRequest.Returns
    (buildRequest (setup clientFlags pairProtocol)
       (newGoInterface (setup clientFlags pairProtocol) demoA) 0 (RoE_Request createChild)) =
  "(*DemoB , error)".
Proof.
  assert (newIdOf (Arg.mk "id" "new_id" "demo_b" "" false "")) as Hnew.
  { split; [reflexivity | discriminate]. }
  assert (∀ other, other ∈ [] ++ [Arg.mk "depth" "int" "" "" false ""] → ¬ newIdOf other)
    as Hothers.
  { intros other Hother [Htag _]. apply list_elem_of_singleton in Hother. subst other.
    discriminate Htag. }
  split; [exact Hnew |].
  exact (proj1 (return_type_matches_constructor (setup clientFlags pairProtocol)
                  (newGoInterface (setup clientFlags pairProtocol) demoA) 0
                  (RoE_Request createChild) [] _ _ eq_refl Hnew Hothers)).
Defined.

Lemma snake_and_camel_witness :
  ∃ w ws,
    words (strings.TrimPrefix "wl_shm_pool" "wl_") = w :: ws ∧
    snakeCase "wl_shm_pool" = w +:+ concat (map strings.Title ws) ∧
    CamelCase initialGlobals "wl_shm_pool" = strings.Title w +:+ concat (map strings.Title ws).
Proof. exact (snake_and_camel initialGlobals "wl_shm_pool" eq_refl). Defined.

Lemma unstable_suffix_stripped_witness :
  unstable v6Flags ≠ "" ∧
  stripUnstable (setup v6Flags shortProtocol) ("zxdg_shell" +:+ "_" +:+ unstable v6Flags) =
  "zxdg_shell".
Proof.
  assert (unstable v6Flags ≠ "") as Hu by discriminate.
  split; [exact Hu |].
  exact (unstable_suffix_stripped v6Flags shortProtocol "zxdg_shell" Hu).
Defined.

Lemma basic_type_decoded_witness :
  Arg.Type_ (Arg.mk "fd" "fd" "" "" false "") ∈ basicTags ∧
  GoArg.BufMethod (buildArg clientFlags (setup clientFlags demoProtocol)
                     (Arg.mk "fd" "fd" "" "" false "")) = "p.Context().NextFD()".
Proof.
  assert (Arg.Type_ (Arg.mk "fd" "fd" "" "" false "") ∈ basicTags) as Htag.
  { apply (bool_decide_unpack _). vm_compute. exact I. }
  split; [exact Htag |].
  destruct (basic_type_decoded clientFlags (setup clientFlags demoProtocol)
              (Arg.mk "fd" "fd" "" "" false "") Htag) as (_ & _ & (method & _ & Hm) & _).
  exact Hm.
Defined.

Lemma symbol_table_order_witness :
  Protocol.Interfaces pairProtocol ≡ₚ Protocol.Interfaces swappedProtocol ∧
  wlNames (setup clientFlags swappedProtocol) = wlNames (setup clientFlags pairProtocol).
Proof.
  assert (Protocol.Interfaces pairProtocol ≡ₚ Protocol.Interfaces swappedProtocol) as Hperm.
  { apply perm_swap. }
  split; [exact Hperm |].
  exact (proj1 (symbol_table_order clientFlags pairProtocol swappedProtocol eq_refl Hperm)).
Defined.

Lemma blocks_follow_document_order_witness :
  accepted clientFlags ∧
  Protocol.Interfaces pairProtocol ≡ₚ Protocol.Interfaces swappedProtocol ∧
  main clientFlags swappedProtocol someTime noGo =
    Written (output clientFlags)
      (headerText clientFlags pairProtocol someTime +:+
       range (interfaceText clientFlags (side clientFlags) (setup clientFlags pairProtocol))
         (Protocol.Interfaces swappedProtocol))
      (fmtFile noGo clientFlags
         (headerText clientFlags pairProtocol someTime +:+
          range (interfaceText clientFlags (side clientFlags) (setup clientFlags pairProtocol))
            (Protocol.Interfaces swappedProtocol))).
Proof.
  assert (accepted clientFlags) as Hf.
  { split; [discriminate |]. split; [left; reflexivity | discriminate]. }
  assert (Protocol.Interfaces pairProtocol ≡ₚ Protocol.Interfaces swappedProtocol) as Hperm.
  { apply perm_swap. }
  split; [exact Hf |]. split; [exact Hperm |].
  exact (proj2 (blocks_follow_document_order clientFlags pairProtocol swappedProtocol
                  someTime noGo Hf eq_refl Hperm)).
Defined.

Lemma no_incoming_entries_witness :
  inbound "client" demoA = [] ∧
  interfaceText clientFlags "client" (setup clientFlags pairProtocol) demoA =
  nl +:+ "type " +:+
  index (wlNames (setup clientFlags pairProtocol))
    (stripUnstable (setup clientFlags pairProtocol) (Interface.Name demoA)) +:+
  " struct {" +:+ nl +:+ tab +:+ wlPrefix (setup clientFlags pairProtocol) +:+
  "BaseProxy" +:+ nl +:+ "}" +:+ nl +:+
  (if decide (side clientFlags = "client")
   then ifaceConstructorTemplate
          (interfaceBinding clientFlags "client" (setup clientFlags pairProtocol) demoA)
   else ifaceConstructorTemplateId
          (interfaceBinding clientFlags "client" (setup clientFlags pairProtocol) demoA)) +:+
  range requestTemplate
    (requestBindings (setup clientFlags pairProtocol)
       (newGoInterface (setup clientFlags pairProtocol) demoA) (outbound "client" demoA)) +:+
  enumsText (setup clientFlags pairProtocol)
    (interfaceBinding clientFlags "client" (setup clientFlags pairProtocol) demoA).
Proof.
  split; [reflexivity |].
  exact (no_incoming_entries clientFlags "client" (setup clientFlags pairProtocol) demoA
           eq_refl).
Defined.

Lemma enumArgName_qualified_witness :
  hasByte dot "wl_output" = false ∧ hasByte dot "transform" = false ∧
  scanner.enumArgName "Surface" ("wl_output" +:+ "." +:+ "transform") =
  scanner.enumArgName (scanner.CamelCase "wl_output") "transform".
Proof.
  split; [reflexivity |]. split; [reflexivity |].
  exact (enumArgName_qualified "Surface" "wl_output" "transform" eq_refl eq_refl).
Defined.

Lemma parameters_as_first_generator_witness :
  wlPrefix (setup clientFlags pairProtocol) = "" ∧
  ifTrimSuffix (setup clientFlags pairProtocol) = "" ∧
  scanner.requestArgs (wlNames (setup clientFlags pairProtocol)) "DemoA" createChild =
  scanner.Return
    (GoRequest.Params
       (buildRequest (setup clientFlags pairProtocol)
          (newGoInterface (setup clientFlags pairProtocol) demoA) 0
          (RoE_Request createChild))).
Proof.
  assert (wlPrefix (setup clientFlags pairProtocol) = "") as Hw by (vm_compute; reflexivity).
  assert (ifTrimSuffix (setup clientFlags pairProtocol) = "") as Hs
    by (vm_compute; reflexivity).
  assert (∀ arg, arg ∈ Request.Args createChild →
            Arg.Name arg ≠ "interface" ∧ ¬ (Arg.Type_ arg = "uint" ∧ Arg.Enum arg ≠ ""))
    as Hall.
  { intros arg Harg. apply elem_of_cons in Harg as [-> | Harg].
    - split; [discriminate |]. intros [Htag _]. discriminate Htag.
    - apply list_elem_of_singleton in Harg. subst arg.
      split; [discriminate |]. intros [Htag _]. discriminate Htag. }
  split; [exact Hw |]. split; [exact Hs |].
  exact (parameters_as_first_generator (setup clientFlags pairProtocol)
           (newGoInterface (setup clientFlags pairProtocol) demoA) 0 "DemoA" createChild
           Hw Hs Hall).
Defined.

Lemma call_arguments_as_first_generator_witness :
  wlPrefix (setup clientFlags pairProtocol) = "" ∧
  scanner.requestBody (wlNames (setup clientFlags pairProtocol)) createChild "_DEMOA_CREATECHILD" =
  scanner.bodyBuffer
    (scanner.requestBody_loop (wlNames (setup clientFlags pairProtocol)) createChild) +:+
  "return " +:+
  scanner.hasRetType
    (scanner.requestBody_loop (wlNames (setup clientFlags pairProtocol)) createChild) +:+
  " p.Connection().SendRequest(p," +:+ "_DEMOA_CREATECHILD" +:+
  GoRequest.Args
    (buildRequest (setup clientFlags pairProtocol)
       (newGoInterface (setup clientFlags pairProtocol) demoA) 0 (RoE_Request createChild)) +:+
  ")".
Proof.
  assert (wlPrefix (setup clientFlags pairProtocol) = "") as Hw by (vm_compute; reflexivity).
  assert (∀ arg, arg ∈ Request.Args createChild → Arg.Name arg ≠ "interface") as Hnames.
  { intros arg Harg. apply elem_of_cons in Harg as [-> | Harg]; [discriminate |].
    apply list_elem_of_singleton in Harg. subst arg. discriminate. }
  assert (∀ arg, arg ∈ tail (Request.Args createChild) → ¬ newIdOf arg) as Hrest.
  { intros arg Harg [Htag _]. apply list_elem_of_singleton in Harg. subst arg.
    discriminate Htag. }
  split; [exact Hw |].
  exact (call_arguments_as_first_generator (setup clientFlags pairProtocol)
           (newGoInterface (setup clientFlags pairProtocol) demoA) 0
           (wlNames (setup clientFlags pairProtocol)) createChild "_DEMOA_CREATECHILD"
           Hw Hnames Hrest).
Defined.

Lemma role_symmetry_witness :
  side clientFlags = "client" ∧ side serverFlags = "server" ∧
  GoInterface.Requests
    (snd (processInterface clientFlags (side clientFlags)
            (setup clientFlags pairProtocol) demoFactory)) =
  requestBindings (setup clientFlags pairProtocol)
    (newGoInterface (setup clientFlags pairProtocol) demoFactory) (rs demoFactory) ∧
  GoInterface.Events
    (snd (processInterface serverFlags (side serverFlags)
            (setup clientFlags pairProtocol) demoFactory)) =
  eventBindings serverFlags (setup clientFlags pairProtocol)
    (newGoInterface (setup clientFlags pairProtocol) demoFactory) (rs demoFactory) ∧
  newIdOf (Arg.mk "id" "new_id" "demo_b" "" false "") ∧
  GoArg.BufMethod
    (buildArg clientFlags (setup clientFlags pairProtocol)
       (Arg.mk "id" "new_id" "demo_b" "" false "")) =
  proxyDecode (setup clientFlags pairProtocol) (Arg.mk "id" "new_id" "demo_b" "" false "") ∧
  GoArg.BufMethod
    (buildArg serverFlags (setup clientFlags pairProtocol)
       (Arg.mk "id" "new_id" "demo_b" "" false "")) =
  newObjectDecode (setup clientFlags pairProtocol)
    (Arg.mk "id" "new_id" "demo_b" "" false "").
Proof.
  assert (newIdOf (Arg.mk "id" "new_id" "demo_b" "" false "")) as Hnew.
  { split; [reflexivity | discriminate]. }
  split; [reflexivity |]. split; [reflexivity |].
  pose proof (role_symmetry clientFlags serverFlags (setup clientFlags pairProtocol)
                demoFactory eq_refl eq_refl) as H.
  cbv zeta in H. destruct H as ((H1 & H2 & _) & _ & _ & Harg & _).
  split; [exact H1 |]. split; [exact H2 |]. split; [exact Hnew |].
  destruct (Harg (Arg.mk "id" "new_id" "demo_b" "" false "")) as (_ & _ & Hdec).
  exact (Hdec Hnew).
Defined.
